(** * The RSS ingestion worker (api/src/workers/rss.js)

    A shallow embedding of the worker: the job controller [handleRSS], the
    existence prefilter [upsertManyArticles], the diff-aware upsert
    [upsertArticle] and [markDone], over an explicit model of the
    collaborators they talk to (the two Mongo collections, the feed parser,
    the activity stream, the enrichment queue, statsd).

    Asynchronous code is written in a small monad: a computation takes the
    world, settles (resolves or rejects) and reports the calls it made to
    the collaborators, in order.  One job is followed at a time; what other
    workers or an outage do to a call shows as a fault that the world holds
    ready for it.  Log lines are left out, and so are the wall-clock values
    of timers. *)

From stdpp Require Import strings list gmap.
From Equations Require Import Equations.

Local Open Scope string_scope.
Local Open Scope list_scope.

(** ** Data *)

(** A thrown JavaScript value, as far as the worker looks at it: [err.code]. *)
Record JsError := mkError { code : option Z; message : string }.

(** rss.js:21 *)
Definition duplicateKeyError : Z := 11000%Z.

(** A plain object used as a mapping ([enclosures], [images]). *)
Definition JsObject := list (string * string).

(** An article as the parser hands it over.  The parser's object has no
    [contentHash] yet; line 96 assigns it, and so does [normalizeArticle]
    below, whatever the field held before. *)
Module Post.
Record t := mk {
  url : string;
  contentHash : string;
  commentUrl : string;
  content : string;
  description : string;
  title : string;
  enclosures : option JsObject;
  images : option JsObject;
  publicationDate : string }.

Definition set_url (u : string) (a : t) : t :=
  mk u (contentHash a) (commentUrl a) (content a) (description a) (title a)
     (enclosures a) (images a) (publicationDate a).

Definition set_contentHash (h : string) (a : t) : t :=
  mk (url a) h (commentUrl a) (content a) (description a) (title a)
     (enclosures a) (images a) (publicationDate a).
End Post.

(** The [update] object of [upsertArticle] (lines 190-197): the four
    [search] fields and the six fields added by [Object.assign]. *)
Module Update.
Record t := mk {
  commentUrl : string;
  content : string;
  description : string;
  title : string;
  url : string;
  rss : string;
  contentHash : string;
  enclosures : JsObject;
  images : JsObject;
  publicationDate : string }.
End Update.

(** A stored article: its [_id] and the fields that [update] writes. *)
Record Doc := mkDoc { _id : string; body : Update.t }.

(** A stored feed, with the four fields the worker writes. *)
Module Feed.
Record t := mk {
  lastScraped : string;
  isParsing : bool;
  consecutiveScrapeFailures : nat;
  postCount : nat }.
End Feed.

(** [job.data] *)
Module Job.
Record t := mk { rss : string; url : string }.
End Job.

(** An activity sent to the stream (lines 146-152). *)
Record Activity := mkActivity {
  actor : string;
  foreign_id : string;
  object : string;
  time : string;
  verb : string }.

(** The second argument of [RSS.update]. *)
Inductive FeedPatch :=
| PatchScraped (lastScraped : string) (isParsing : bool)
| PatchPostCount (postCount : nat).

(** What an [async] function settles to. *)
Inductive Outcome (A : Type) :=
| Resolved (a : A)
| Rejected (err : JsError).
Arguments Resolved {A} a.
Arguments Rejected {A} err.

(** What [upsertArticle] resolves to: the stored document, [null] (line
    225) or [undefined] (falling off the end of the function). *)
Inductive UpsertResult :=
| JsDoc (d : Doc)
| JsNull
| JsUndefined.

(** The raw result of [findOneAndUpdate] with [rawResult: true]. *)
Record RawResult := mkRaw { value : Doc; updatedExisting : bool }.

(** Calls to the collaborators, as they are observed from outside. *)
Inductive Event :=
| EvRssUpdate (id : string) (patch : FeedPatch)
| EvRssFindOne (id : string)
| EvRssResetScrapeFailures (id : string)
| EvRssIncrScrapeFailures (id : string)
| EvParseFeed (url : string)
| EvArticleFind (rssID : string) (searchData : list (string * string))
| EvArticleCount (rssID : string)
| EvArticleFindOneAndUpdate (update : Update.t)
| EvStatsdIncrement (name : string) (n : nat)
| EvStatsdTiming (name : string) (n : option nat)
| EvOgQueueAdd (type url : string)
| EvAddActivities (slug id : string) (activities : list Activity)
| EvSendRssFeedToCollections (id : string).

(** The world outside the worker.  [upsertFaults] and [streamFaults] say,
    call by call, whether the store rejects a [findOneAndUpdate], and
    whether an [addActivities] or the notification of the collections is
    rejected, for a reason of the other side (an outage, a write of another
    worker that got in between); [None], or an exhausted list, lets the
    call through.  [emptyOr] is what the store makes of a
    query whose [$or] lists nothing: the error it answers with, or [None]
    where such a query goes through and selects nothing. *)
Record World := mkWorld {
  feeds : gmap string Feed.t;
  articles : list Doc;
  nextId : nat;
  objectIds : nat -> string;
  upsertFaults : list (option JsError);
  streamFaults : list (option JsError);
  emptyOr : option JsError;
  clock : string;
  web : string -> Outcome (option (list Post.t)) }.

Definition set_feeds (f : gmap string Feed.t) (w : World) : World :=
  mkWorld f (articles w) (nextId w) (objectIds w) (upsertFaults w)
          (streamFaults w) (emptyOr w) (clock w) (web w).

Definition set_articles (l : list Doc) (w : World) : World :=
  mkWorld (feeds w) l (nextId w) (objectIds w) (upsertFaults w)
          (streamFaults w) (emptyOr w) (clock w) (web w).

Definition set_nextId (n : nat) (w : World) : World :=
  mkWorld (feeds w) (articles w) n (objectIds w) (upsertFaults w)
          (streamFaults w) (emptyOr w) (clock w) (web w).

Definition set_upsertFaults (l : list (option JsError)) (w : World) : World :=
  mkWorld (feeds w) (articles w) (nextId w) (objectIds w) l
          (streamFaults w) (emptyOr w) (clock w) (web w).

Definition set_streamFaults (l : list (option JsError)) (w : World) : World :=
  mkWorld (feeds w) (articles w) (nextId w) (objectIds w) (upsertFaults w)
          l (emptyOr w) (clock w) (web w).

(** The fault, if any, that the next call runs into. *)
Definition pending (faults : list (option JsError)) : option JsError :=
  match faults with
  | Some err :: _ => Some err
  | _ => None
  end.

(** ** Asynchronous computations *)

Record Run (A : Type) := mkRun {
  outcome : Outcome A;
  world : World;
  events : list Event }.
Arguments mkRun {A} outcome world events.
Arguments outcome {A} r.
Arguments world {A} r.
Arguments events {A} r.

Definition M (A : Type) : Type := World -> Run A.

Definition ret {A} (a : A) : M A := fun w => mkRun (Resolved a) w [].

Definition throw {A} (err : JsError) : M A := fun w => mkRun (Rejected err) w [].

(** [await m] followed by the rest of the function. *)
Definition bind {A B} (m : M A) (k : A -> M B) : M B := fun w =>
  let r := m w in
  match outcome r with
  | Resolved a =>
      let r' := k a (world r) in
      mkRun (outcome r') (world r') (events r ++ events r')
  | Rejected err => mkRun (Rejected err) (world r) (events r)
  end.

(** [try { m } catch (err) { h err }] *)
Definition tryCatch {A} (m : M A) (h : JsError -> M A) : M A := fun w =>
  let r := m w in
  match outcome r with
  | Resolved a => r
  | Rejected err =>
      let r' := h err (world r) in
      mkRun (outcome r') (world r') (events r ++ events r')
  end.

Definition emit (e : Event) : M unit := fun w => mkRun (Resolved tt) w [e].

Declare Scope async_scope.
Delimit Scope async_scope with async.
Notation "x <- m ;; k" := (bind m (fun x => k))
  (at level 100, m at next level, right associativity) : async_scope.
Notation "m ;;; k" := (bind m (fun _ => k))
  (at level 100, right associativity) : async_scope.
Local Open Scope async_scope.

(** [Promise.all] over promises that [map] has already created.  Every
    call of the array has been started before the first [await], so every
    one reaches its collaborator whatever becomes of the others; the
    collaborator takes them one at a time, here in the order they were
    issued.  The result is the first rejection, or else the values in the
    order of the array.  The calls are listed promise by promise: what a
    promise does once its first call has settled (the count of an ignored
    duplicate in [upsertArticle]) stands right behind that call, although
    by then the first call of every later promise has been made as well.
    The statements rely on the order of the first calls among themselves
    only. *)
Fixpoint promiseAll {A} (ps : list (M A)) : M (list A) := fun w =>
  match ps with
  | [] => mkRun (Resolved []) w []
  | p :: ps' =>
      let r := p w in
      let rs := promiseAll ps' (world r) in
      mkRun
        match outcome r with
        | Rejected err => Rejected err
        | Resolved a =>
            match outcome rs with
            | Resolved l => Resolved (a :: l)
            | Rejected err => Rejected err
            end
        end
        (world rs) (events r ++ events rs)
  end.

(** ** Collaborators *)

(** The feed collection (models/rss.js on top of the document store). *)
Module RSS.
Definition applyPatch (p : FeedPatch) (f : Feed.t) : Feed.t :=
  match p with
  | PatchScraped t b =>
      Feed.mk t b (Feed.consecutiveScrapeFailures f) (Feed.postCount f)
  | PatchPostCount n =>
      Feed.mk (Feed.lastScraped f) (Feed.isParsing f)
              (Feed.consecutiveScrapeFailures f) n
  end.

Definition set_failures (n : nat) (f : Feed.t) : Feed.t :=
  Feed.mk (Feed.lastScraped f) (Feed.isParsing f) n (Feed.postCount f).

(** [RSS.update({ _id: id }, patch)]: no upsert, a missing feed stays
    missing. *)
Definition update (id : string) (p : FeedPatch) : M unit := fun w =>
  mkRun (Resolved tt) (set_feeds (alter (applyPatch p) id (feeds w)) w)
        [EvRssUpdate id p].

(** [RSS.findOne({ _id: id })] *)
Definition findOne (id : string) : M (option Feed.t) := fun w =>
  mkRun (Resolved (feeds w !! id)) w [EvRssFindOne id].

(** Modelled from the spec: [RSS.resetScrapeFailures] is a static of
    models/rss.js, which is not among the sources; section 4.2 has it
    reset the feed's consecutive failure count to 0. *)
Definition resetScrapeFailures (id : string) : M unit := fun w =>
  mkRun (Resolved tt) (set_feeds (alter (set_failures 0) id (feeds w)) w)
        [EvRssResetScrapeFailures id].

(** Modelled from the spec: [RSS.incrScrapeFailures] is a static of
    models/rss.js, which is not among the sources; section 4.2 has it
    increment the feed's consecutive failure count by 1. *)
Definition incrScrapeFailures (id : string) : M unit := fun w =>
  mkRun (Resolved tt)
        (set_feeds
           (alter (fun f => set_failures (S (Feed.consecutiveScrapeFailures f)) f)
                  id (feeds w)) w)
        [EvRssIncrScrapeFailures id].
End RSS.

(** The article collection. *)
Module Article.
(** [{$and: [{rss: rssID}, {$or: searchData}]}]: the feed's documents
    whose (url, contentHash) is one of the pairs.  The projection keeps
    [url] and [contentHash]; the read preference does not change what the
    query means.  A query with nothing under [$or] is answered as the world
    has it. *)
Definition find (rssID : string) (searchData : list (string * string))
  : M (list (string * string)) := fun w =>
  match searchData, emptyOr w with
  | [], Some err => mkRun (Rejected err) w [EvArticleFind rssID searchData]
  | _, _ =>
      mkRun
        (Resolved
           (map (fun d => (Update.url (body d), Update.contentHash (body d)))
              (List.filter
                 (fun d =>
                    bool_decide (Update.rss (body d) = rssID)
                    && bool_decide ((Update.url (body d), Update.contentHash (body d))
                                      ∈ searchData))
                 (articles w))))
        w [EvArticleFind rssID searchData]
  end.

(** [Article.count({rss: rssID})] *)
Definition count (rssID : string) : M nat := fun w =>
  mkRun
    (Resolved
       (length (List.filter (fun d => bool_decide (Update.rss (body d) = rssID))
                            (articles w))))
    w [EvArticleCount rssID].

Definition sameKey (u : Update.t) (d : Doc) : bool :=
  bool_decide (Update.rss (body d) = Update.rss u)
  && bool_decide (Update.url (body d) = Update.url u).

(** Modelled from the spec: the unique index on (rss, url) is declared
    in models/article.js, which is not among the sources; section 3 has
    the store keep at most one article per pair and reject the insert
    that would add a second one. *)
Definition uniqueIndexViolated (u : Update.t) (l : list Doc) : bool :=
  existsb (sameKey u) l.

Definition duplicateKey : JsError :=
  mkError (Some duplicateKeyError) "E11000 duplicate key error".

(** [Article.findOneAndUpdate(conditions, update,
    {new: true, upsert: true, rawResult: true})]: the first document that
    meets [conditions] has every field of [update] set and keeps its
    [_id]; when there is none, [update] is inserted under a fresh [_id]
    ([update] carries the [rss] and [url] that the conditions fix). *)
Definition findOneAndUpdate (conditions : Doc -> bool) (update : Update.t)
  : M RawResult := fun w =>
  let w1 := set_upsertFaults (tail (upsertFaults w)) w in
  let ev := [EvArticleFindOneAndUpdate update] in
  match pending (upsertFaults w) with
  | Some err => mkRun (Rejected err) w1 ev
  | None =>
      match list_find (fun d => conditions d = true) (articles w) with
      | Some (i, d) =>
          let d' := mkDoc (_id d) update in
          mkRun (Resolved (mkRaw d' true))
                (set_articles (<[i := d']> (articles w)) w1) ev
      | None =>
          if uniqueIndexViolated update (articles w)
          then mkRun (Rejected duplicateKey) w1 ev
          else
            let d' := mkDoc (objectIds w (nextId w)) update in
            mkRun (Resolved (mkRaw d' false))
                  (set_nextId (S (nextId w))
                     (set_articles (articles w ++ [d']) w1)) ev
      end
  end.
End Article.

(** [ParseFeed(url)]: resolves to the feed content, possibly a falsy one,
    or rejects. *)
Definition ParseFeed (url : string) : M (option (list Post.t)) := fun w =>
  mkRun (web w url) w [EvParseFeed url].

(** [moment().toISOString()] *)
Definition now : M string := fun w => mkRun (Resolved (clock w)) w [].

Module statsd.
Definition increment (name : string) (n : nat) : M unit :=
  emit (EvStatsdIncrement name n).
Definition timing (name : string) (n : option nat) : M unit :=
  emit (EvStatsdTiming name n).
End statsd.

(** Modelled from the spec: [timeIt] comes from utils/statsd.js, which is
    not among the sources; section 6 has the metrics collaborator observe
    only, so [timeIt name fn] settles as [fn] does (the timer it reports is
    a wall-clock value). *)
Definition timeIt {A} (name : string) (fn : M A) : M A := fn.

(** [OgQueueAdd({type, url}, {removeOnComplete: true, removeOnFail: true})],
    not awaited. *)
Definition OgQueueAdd (type url : string) : M unit :=
  emit (EvOgQueueAdd type url).

(** [streamClient.feed(slug, id).addActivities(activities)] *)
Definition addActivities (slug id : string) (activities : list Activity)
  : M unit := fun w =>
  let w1 := set_streamFaults (tail (streamFaults w)) w in
  let ev := [EvAddActivities slug id activities] in
  match pending (streamFaults w) with
  | Some err => mkRun (Rejected err) w1 ev
  | None => mkRun (Resolved tt) w1 ev
  end.

(** [sendRssFeedToCollections(rss)], for the feed found under [id].  The
    worker awaits the call without a catch, so that a rejection of it is a
    rejection of the job; whether it is rejected is read from the list that
    serves [addActivities], the next entry for the next call. *)
Definition sendRssFeedToCollections (id : string) : M unit := fun w =>
  let w1 := set_streamFaults (tail (streamFaults w)) w in
  let ev := [EvSendRssFeedToCollections id] in
  match pending (streamFaults w) with
  | Some err => mkRun (Rejected err) w1 ev
  | None => mkRun (Resolved tt) w1 ev
  end.

(** ** The worker *)

(** rss.js:232-238 *)
Definition markDone (rssID : string) : M unit :=
  t <- now ;;
  RSS.update rssID (PatchScraped t false).

(** The [$or] of [postContentDiffers] (lines 199-201): some field of
    [search] is not the stored one. *)
Definition postContentDiffers (post : Post.t) (d : Doc) : bool :=
  negb (bool_decide (Update.commentUrl (body d) = Post.commentUrl post))
  || negb (bool_decide (Update.content (body d) = Post.content post))
  || negb (bool_decide (Update.description (body d) = Post.description post))
  || negb (bool_decide (Update.title (body d) = Post.title post)).

(** The conditions of the [findOneAndUpdate] of lines 206-211. *)
Definition upsertConditions (rssID : string) (post : Post.t) (d : Doc) : bool :=
  (bool_decide (Update.rss (body d) = rssID)
   && bool_decide (Update.url (body d) = Post.url post))
  && postContentDiffers post d.

(** The [update] object of lines 190-197. *)
Definition upsertUpdate (rssID : string) (post : Post.t) : Update.t :=
  Update.mk (Post.commentUrl post) (Post.content post)
            (Post.description post) (Post.title post)
            (Post.url post) rssID (Post.contentHash post)
            (default [] (Post.enclosures post))
            (default [] (Post.images post))
            (Post.publicationDate post).

(** rss.js:183-229 *)
Definition upsertArticle (rssID : string) (post : Post.t) : M UpsertResult :=
  tryCatch
    (rawArticle <- Article.findOneAndUpdate (upsertConditions rssID post)
                     (upsertUpdate rssID post) ;;
     if negb (updatedExisting rawArticle)
     then ret (JsDoc (value rawArticle))
     else ret JsUndefined)
    (fun err =>
       if bool_decide (code err = Some duplicateKeyError)
       then (statsd.increment "winds.handle_rss.articles.ignored" 1 ;;;
             ret JsNull)
       else throw err).

(** [list.includes(x)] on strings *)
Definition includes (l : list string) (x : string) : bool := bool_decide (x ∈ l).

(** The filter of lines 173-175. *)
Definition needsSync (existingArticleUrls existingArticleHashes : list string)
  (article : Post.t) : bool :=
  negb (includes existingArticleUrls (Post.url article))
  && negb (includes existingArticleHashes (Post.contentHash article)).

(** rss.js:161-180 *)
Definition upsertManyArticles (rssID : string) (articles : list Post.t)
  : M (list UpsertResult) :=
  let searchData :=
    map (fun article => (Post.url article, Post.contentHash article)) articles in
  existingArticles <- Article.find rssID searchData ;;
  let existingArticleUrls := map fst existingArticles in
  let existingArticleHashes := map snd existingArticles in
  statsd.increment "winds.handle_rss.articles.already_in_mongo"
    (length existingArticleUrls) ;;;
  let articlesToUpsert :=
    List.filter (needsSync existingArticleUrls existingArticleHashes) articles in
  promiseAll (map (upsertArticle rssID) articlesToUpsert).

(** The activity of lines 146-152. *)
Definition streamActivity (article : Doc) : Activity :=
  mkActivity (Update.rss (body article))
             ("articles:" ++ _id article)
             (_id article)
             (Update.publicationDate (body article))
             "rss_article".

(** [list.slice(start, stop)] for indices within or past the list *)
Definition slice {A} (start stop : nat) (l : list A) : list A :=
  take (stop - start) (drop start l).

Definition chunkSize : nat := 100.

(** The loop of lines 143-155, entered at index [i]. *)
Equations? publishChunks (slug id : string) (updatedArticles : list Doc) (i : nat)
  : M unit by wf (length updatedArticles - i) lt :=
publishChunks slug id updatedArticles i
  with decide (i < length updatedArticles) := {
  | left _ =>
      let chunk := slice i (i + chunkSize) updatedArticles in
      let streamArticles := map streamActivity chunk in
      (addActivities slug id streamArticles ;;;
       publishChunks slug id updatedArticles (i + chunkSize));
  | right _ => ret tt }.
Proof. unfold chunkSize. lia. Qed.

(** Lines 139-157 of [handleRSS], the synchronisation with the stream,
    kept apart so that statements can name it: [rssFeed] is the handle
    [streamClient.feed('rss', rssID)], which is built without talking to
    the stream. *)
Definition syncToStream (rssID : string) (updatedArticles : list Doc) : M unit :=
  let rssFeed := ("rss", rssID) in
  if (0 <? length updatedArticles)%nat
  then (publishChunks rssFeed.1 rssFeed.2 updatedArticles 0 ;;;
        sendRssFeedToCollections rssID)
  else ret tt.

(** What [filter(updatedArticle => updatedArticle)] keeps (lines 115-117):
    a document is truthy, [null] and [undefined] are not. *)
Definition truthy (r : UpsertResult) : option Doc :=
  match r with
  | JsDoc d => Some d
  | JsNull | JsUndefined => None
  end.

Section Worker.

(** [normalize] of the normalize-url package and
    [Article.computeContentHash] (models/article.js); [None] when the
    call throws. *)
Variable normalize : string -> option string.
Variable computeContentHash : Post.t -> option string.

(** The callback of lines 93-101: [null] for an article that makes
    either call throw. *)
Definition normalizeArticle (a : Post.t) : option Post.t :=
  match normalize (Post.url a) with
  | None => None
  | Some u =>
      let a1 := Post.set_url u a in
      match computeContentHash a1 with
      | None => None
      | Some h => Some (Post.set_contentHash h a1)
      end
  end.

(** rss.js:48-159 *)
Definition handleRSS (job : Job.t) : M unit :=
  let rssID := Job.rss job in
  timeIt "winds.handle_rss.ack" (markDone rssID) ;;;
  rss <- timeIt "winds.handle_rss.get_rss" (RSS.findOne rssID) ;;
  match rss with
  | None => ret tt
  | Some _ =>
      rssContent <-
        timeIt "winds.handle_rss.parsing"
          (tryCatch
             (res <- ParseFeed (Job.url job) ;;
              RSS.resetScrapeFailures rssID ;;;
              ret res)
             (fun err => RSS.incrScrapeFailures rssID ;;; throw err)) ;;
      match rssContent with
      | None => ret tt
      | Some rssArticles =>
          if (length rssArticles =? 0)%nat then ret tt
          else
            statsd.increment "winds.handle_rss.articles.parsed"
              (length rssArticles) ;;;
            statsd.timing "winds.handle_rss.articles.parsed"
              (Some (length rssArticles)) ;;;
            allArticles <-
              timeIt "winds.handle_rss.upsertManyArticles"
                (upsertManyArticles rssID (omap normalizeArticle rssArticles)) ;;
            postCount <- Article.count rssID ;;
            RSS.update rssID (PatchPostCount postCount) ;;;
            let updatedArticles := omap truthy allArticles in
            statsd.increment "winds.handle_rss.articles.upserted"
              (length updatedArticles) ;;;
            timeIt "winds.handle_rss.OgQueueAdd"
              (promiseAll
                 (map (fun article =>
                         OgQueueAdd "article" (Update.url (body article)))
                      updatedArticles)) ;;;
            syncToStream rssID updatedArticles ;;;
            statsd.timing "winds.handle_rss.send_to_stream" None
      end
  end.

(** rss.js:31-45 *)
Definition rssProcessor (job : Job.t) : M unit :=
  tryCatch (handleRSS job) (fun _ => ret tt).

(** The candidates of a job: the fetched articles that normalise. *)
Definition candidatesOf (job : Job.t) (w : World) : list Post.t :=
  match web w (Job.url job) with
  | Resolved (Some rssArticles) => omap normalizeArticle rssArticles
  | _ => []
  end.

End Worker.

(** ** Vocabulary of the statements *)

(** The call that [upsertArticle] makes to the store for [post]. *)
Definition upsertEvent (rssID : string) (post : Post.t) : Event :=
  EvArticleFindOneAndUpdate (upsertUpdate rssID post).

(** The count of an ignored duplicate (line 224). *)
Definition ignoredEvent : Event :=
  EvStatsdIncrement "winds.handle_rss.articles.ignored" 1.

(** The identity of a stored article: the pair the unique index is on. *)
Definition docKey (d : Doc) : string * string :=
  (Update.rss (body d), Update.url (body d)).

(** The document a settled upsert hands back, if it hands one back. *)
Definition inserted (o : Outcome UpsertResult) : list Doc :=
  match o with
  | Resolved (JsDoc d) => [d]
  | _ => []
  end.

(** The upserts of a batch, as [upsertManyArticles] issues them. *)
Definition batch (rssID : string) (posts : list Post.t) : M (list UpsertResult) :=
  promiseAll (map (upsertArticle rssID) posts).

(** The update document of a write to the article collection. *)
Definition upsertOf (e : Event) : option Update.t :=
  match e with
  | EvArticleFindOneAndUpdate u => Some u
  | _ => None
  end.

(** A list cut into consecutive pieces of [n] elements, the last one
    possibly shorter: what "published in chunks of [n]" means. *)
Equations? chunksOf {A} (n : nat) (l : list A) : list (list A) by wf (length l) lt :=
chunksOf 0 _ := [];
chunksOf (S n) [] := [];
chunksOf (S n) (x :: l) := (x :: take n l) :: chunksOf (S n) (drop n l).
Proof. rewrite length_drop. lia. Qed.

(** The call that publishes one chunk. *)
Definition publishEvent (slug id : string) (chunk : list Doc) : Event :=
  EvAddActivities slug id (map streamActivity chunk).

(** No fault is waiting in the list. *)
Definition quiet (faults : list (option JsError)) : Prop :=
  forall err, Some err ∉ faults.

(** A run with the calls [ev] made before it. *)
Definition prepend {A} (ev : list Event) (r : Run A) : Run A :=
  mkRun (outcome r) (world r) (ev ++ events r).

(** The world in which a job starts its upserts: the feed marked as done
    and its failure count reset. *)
Definition afterFetch (rssID : string) (w : World) : World :=
  set_feeds
    (alter (RSS.set_failures 0) rssID
       (alter (RSS.applyPatch (PatchScraped (clock w) false)) rssID (feeds w)))
    w.

(** The calls of a job up to and including a successful fetch. *)
Definition fetchEvents (job : Job.t) (w : World) : list Event :=
  [EvRssUpdate (Job.rss job) (PatchScraped (clock w) false);
   EvRssFindOne (Job.rss job);
   EvParseFeed (Job.url job);
   EvRssResetScrapeFailures (Job.rss job)].

(** The error, if any, that the query of the prefilter runs into: there
    is one only for a batch without candidates. *)
Definition findFault (candidates : list Post.t) (w : World) : option JsError :=
  match candidates with
  | [] => emptyOr w
  | _ => None
  end.

(** The calls of a job between the fetch and the count. *)
Definition isUpsertPhase (e : Event) : bool :=
  match e with
  | EvArticleFind _ _ | EvArticleFindOneAndUpdate _ | EvStatsdIncrement _ _ => true
  | _ => false
  end.

(** What the store answers to the query of the prefilter. *)
Definition existingArticles (rssID : string) (candidates : list Post.t) (w : World)
  : list (string * string) :=
  map (fun d => (Update.url (body d), Update.contentHash (body d)))
    (List.filter
       (fun d =>
          bool_decide (Update.rss (body d) = rssID)
          && bool_decide
               ((Update.url (body d), Update.contentHash (body d))
                  ∈ map (fun a => (Post.url a, Post.contentHash a)) candidates))
       (articles w)).

(** The candidates that the prefilter lets through. *)
Definition articlesToUpsert (rssID : string) (candidates : list Post.t) (w : World)
  : list Post.t :=
  List.filter
    (needsSync (map fst (existingArticles rssID candidates w))
               (map snd (existingArticles rssID candidates w)))
    candidates.

(** The number of stored articles of a feed. *)
Definition articleCount (rssID : string) (w : World) : nat :=
  length (List.filter (fun d => bool_decide (Update.rss (body d) = rssID))
                      (articles w)).

(** What is left of a job once its batch of upserts has settled as [b]:
    nothing after a rejection; else the count, the enrichment jobs and the
    synchronisation with the stream. *)
Definition afterUpserts (rssID : string) (b : Run (list UpsertResult)) : Run unit :=
  match outcome b with
  | Rejected err => mkRun (Rejected err) (world b) (events b)
  | Resolved allArticles =>
      let news := omap truthy allArticles in
      let n := articleCount rssID (world b) in
      let w2 :=
        set_feeds (alter (RSS.applyPatch (PatchPostCount n)) rssID (feeds (world b)))
                  (world b) in
      let s := syncToStream rssID news w2 in
      mkRun (outcome s) (world s)
        (events b
         ++ [EvArticleCount rssID; EvRssUpdate rssID (PatchPostCount n);
             EvStatsdIncrement "winds.handle_rss.articles.upserted" (length news)]
         ++ map (fun d => EvOgQueueAdd "article" (Update.url (body d))) news
         ++ events s
         ++ match outcome s with
            | Resolved _ => [EvStatsdTiming "winds.handle_rss.send_to_stream" None]
            | Rejected _ => []
            end)
  end.

(** A stored article of the feed that is, pair for pair, one of the
    candidates: what the query of the prefilter selects. *)
Definition exactMatch (rssID : string) (candidates : list Post.t) (w : World)
  (d : Doc) : Prop :=
  d ∈ articles w /\ Update.rss (body d) = rssID /\
  exists c, c ∈ candidates /\ Update.url (body d) = Post.url c /\
            Update.contentHash (body d) = Post.contentHash c.

(** The url of an enrichment job. *)
Definition ogOf (e : Event) : option string :=
  match e with
  | EvOgQueueAdd _ url => Some url
  | _ => None
  end.

(** The calls that announce an article: enrichment, stream, collections. *)
Definition isAnnouncement (e : Event) : bool :=
  match e with
  | EvOgQueueAdd _ _ | EvAddActivities _ _ _ | EvSendRssFeedToCollections _ => true
  | _ => false
  end.

(** The articles for which a job may hold a stored document in its hands:
    the candidates that its prefilter lets through. *)
Definition keptOf (candidates : list Post.t) (rssID : string) (w : World)
  : list Post.t :=
  articlesToUpsert rssID candidates (afterFetch rssID w).

(** The documents that the upserts of a job hand back, which are the
    [updatedArticles] of lines 115-117: the truthy results of the batch of a
    job that has found its feed and fetched at least one article, when the
    batch resolves; no other job has any. *)
Definition newsOf (normalize : string -> option string)
  (computeContentHash : Post.t -> option string) (job : Job.t) (w : World)
  : list Doc :=
  match feeds w !! Job.rss job, web w (Job.url job) with
  | Some _, Resolved (Some (_ :: _)) =>
      match outcome (upsertManyArticles (Job.rss job)
                       (candidatesOf normalize computeContentHash job w)
                       (afterFetch (Job.rss job) w)) with
      | Resolved allArticles => omap truthy allArticles
      | Rejected _ => []
      end
  | _, _ => []
  end.

(** The first call of every job: the write of [markDone]. *)
Definition markDoneEvent (rssID : string) (w : World) : Event :=
  EvRssUpdate rssID (PatchScraped (clock w) false).

(** The calls that a job makes after [markDone]: the look-up of the feed,
    the fetch, and every read or write of the article collection. *)
Definition isLaterCall (e : Event) : bool :=
  match e with
  | EvRssFindOne _ | EvParseFeed _ | EvArticleFind _ _ | EvArticleCount _
  | EvArticleFindOneAndUpdate _ => true
  | _ => false
  end.

(** The calls to the stream side: publishing and the collections. *)
Definition isStreamCall (e : Event) : bool :=
  match e with
  | EvAddActivities _ _ _ | EvSendRssFeedToCollections _ => true
  | _ => false
  end.

(** What a job does only after its upserts: the count, its write to the
    feed, and the announcements. *)
Definition isAfterUpserts (e : Event) : bool :=
  match e with
  | EvArticleCount _ | EvRssUpdate _ (PatchPostCount _) => true
  | _ => isAnnouncement e
  end.

(** A stored article that the conditions of [upsertArticle] select: same
    feed and url as [post], some content field different. *)
Definition differsFrom (rssID : string) (post : Post.t) (d : Doc) : Prop :=
  Update.rss (body d) = rssID /\ Update.url (body d) = Post.url post /\
  (Update.commentUrl (body d) <> Post.commentUrl post \/
   Update.content (body d) <> Post.content post \/
   Update.description (body d) <> Post.description post \/
   Update.title (body d) <> Post.title post).

(** ** Decidable equality and sample data *)

#[global] Instance Post_eq_dec : EqDecision Post.t.
Proof. solve_decision. Defined.

#[global] Instance Update_eq_dec : EqDecision Update.t.
Proof. solve_decision. Defined.

#[global] Instance Activity_eq_dec : EqDecision Activity.
Proof. solve_decision. Defined.

#[global] Instance FeedPatch_eq_dec : EqDecision FeedPatch.
Proof. solve_decision. Defined.

#[global] Instance Event_eq_dec : EqDecision Event.
Proof. solve_decision. Defined.

(** A parsed article with the given url, contentHash and title. *)
Definition samplePost (url hash title : string) : Post.t :=
  Post.mk url hash "" "" "" title None None "2018-05-01T00:00:00.000Z".

(** The article stored for [samplePost] of feed [rssID] under [_id]. *)
Definition sampleDoc (id rssID url hash title : string) : Doc :=
  mkDoc id (upsertUpdate rssID (samplePost url hash title)).

Definition sampleIds (n : nat) : string :=
  match n with
  | 0 => "5b0000000000000000000000"
  | 1 => "5b0000000000000000000001"
  | 2 => "5b0000000000000000000002"
  | _ => "5b00000000000000000000ff"
  end.

(** A world with feed ["F"] (three failed scrapes so far, no posts counted),
    the given stored articles, faults and feed content at every url. *)
Definition sampleWorld (stored : list Doc) (faults : list (option JsError))
  (content : Outcome (option (list Post.t))) : World :=
  mkWorld {[ "F" := Feed.mk "2018-04-30T00:00:00.000Z" true 3 0 ]}
          stored 0 sampleIds faults []
          (Some (mkError (Some 2%Z) "$and/$or/$nor must be a nonempty array"))
          "2018-05-02T00:00:00.000Z"
          (fun _ => content).

(** Stand-ins for the two library calls: urls are taken as normal already,
    and the hash is the title. *)
Definition sampleNormalize (u : string) : option string := Some u.
Definition sampleHash (a : Post.t) : option string := Some (Post.title a).

(** ** Vocabulary of the further statements *)

(** A call addressed to the feed [rssID], or to the feed's url [url] where
    it is a fetch: the only calls a job for that feed has a reason to make. *)
Definition isJobCall (rssID url : string) (e : Event) : bool :=
  match e with
  | EvRssUpdate id _ | EvRssFindOne id | EvRssResetScrapeFailures id
  | EvRssIncrScrapeFailures id | EvArticleCount id | EvArticleFind id _
  | EvSendRssFeedToCollections id => bool_decide (id = rssID)
  | EvParseFeed u => bool_decide (u = url)
  | EvArticleFindOneAndUpdate u => bool_decide (Update.rss u = rssID)
  | EvOgQueueAdd type _ => bool_decide (type = "article")
  | EvAddActivities slug id _ => bool_decide (slug = "rss") && bool_decide (id = rssID)
  | EvStatsdIncrement _ _ | EvStatsdTiming _ _ => true
  end.

(** What a stored article is known by: its [_id] and its key. *)
Definition identityOf (d : Doc) : string * (string * string) := (_id d, docKey d).

(** The world after [k] runs of [m], one after the other. *)
Fixpoint worldAfter (k : nat) (m : M unit) (w : World) : World :=
  match k with
  | 0 => w
  | S k' => worldAfter k' m (world (m w))
  end.

(** The activities of a call that publishes to the stream. *)
Definition activitiesOf (e : Event) : option (list Activity) :=
  match e with
  | EvAddActivities _ _ acts => Some acts
  | _ => None
  end.

(** * Properties *)

(** ** Runs of the primitive steps *)

(** The five ways a call of [upsertArticle] can go. *)
Lemma upsertArticle_run rssID post w :
  upsertArticle rssID post w =
  let w1 := set_upsertFaults (tail (upsertFaults w)) w in
  match pending (upsertFaults w) with
  | Some err =>
      if bool_decide (code err = Some duplicateKeyError)
      then mkRun (Resolved JsNull) w1 [upsertEvent rssID post; ignoredEvent]
      else mkRun (Rejected err) w1 [upsertEvent rssID post]
  | None =>
      match list_find (fun d => upsertConditions rssID post d = true) (articles w) with
      | Some (i, d) =>
          mkRun (Resolved JsUndefined)
                (set_articles (<[i := mkDoc (_id d) (upsertUpdate rssID post)]> (articles w)) w1)
                [upsertEvent rssID post]
      | None =>
          if Article.uniqueIndexViolated (upsertUpdate rssID post) (articles w)
          then mkRun (Resolved JsNull) w1 [upsertEvent rssID post; ignoredEvent]
          else
            let d' := mkDoc (objectIds w (nextId w)) (upsertUpdate rssID post) in
            mkRun (Resolved (JsDoc d'))
                  (set_nextId (S (nextId w)) (set_articles (articles w ++ [d']) w1))
                  [upsertEvent rssID post]
      end
  end.
Proof.
  unfold upsertArticle, tryCatch, bind, Article.findOneAndUpdate.
  destruct (pending (upsertFaults w)) as [err|]; cbn.
  - destruct (bool_decide (code err = Some duplicateKeyError)); reflexivity.
  - destruct (list_find _ (articles w)) as [[i d]|]; cbn; [reflexivity|].
    destruct (Article.uniqueIndexViolated _ _); reflexivity.
Qed.

Lemma uniqueIndexViolated_false u l :
  Article.uniqueIndexViolated u l = false <->
  (Update.rss u, Update.url u) ∉ map docKey l.
Proof.
  unfold Article.uniqueIndexViolated. induction l as [|d l IH]; cbn.
  - split; [intros _; apply not_elem_of_nil | done].
  - rewrite orb_false_iff, IH, not_elem_of_cons.
    unfold Article.sameKey, docKey.
    rewrite andb_false_iff, !bool_decide_eq_false.
    split.
    + intros [[H|H] Hl]; (split; [|done]); intros [=]; congruence.
    + intros [Hk Hl]. split; [|done].
      destruct (decide (Update.rss (body d) = Update.rss u)); [|by left].
      right. intros Hu. apply Hk. congruence.
Qed.

Lemma upsertConditions_key rssID post d :
  upsertConditions rssID post d = true -> docKey d = (rssID, Post.url post).
Proof.
  unfold upsertConditions, docKey.
  rewrite !andb_true_iff, !bool_decide_eq_true. intros [[-> ->] _]. done.
Qed.

Lemma filter_insert_false {A} (P : A -> bool) (l : list A) i x y :
  l !! i = Some x -> P x = false -> P y = false ->
  List.filter P (<[i := y]> l) = List.filter P l.
Proof.
  revert i. induction l as [|a l IH]; intros [|i] Hi Hx Hy; try done.
  - cbn in Hi. injection Hi as ->. cbn. by rewrite Hx, Hy.
  - cbn in Hi. cbn. destruct (P a); [f_equal|]; by apply IH.
Qed.

Lemma filter_snoc_false {A} (P : A -> bool) (l : list A) y :
  P y = false -> List.filter P (l ++ [y]) = List.filter P l.
Proof.
  intros Hy. rewrite List.filter_app. cbn. rewrite Hy. apply app_nil_r.
Qed.

Section UpsertStep.
Variables (rssID : string) (post : Post.t) (w : World).

Let r := upsertArticle rssID post w.

Ltac cases :=
  subst r; rewrite upsertArticle_run; cbn zeta;
  destruct (pending (upsertFaults w)) as [err|];
  [ destruct (bool_decide (code err = Some duplicateKeyError)) eqn:Hcode
  | destruct (list_find (fun d => upsertConditions rssID post d = true) (articles w))
      as [[i d]|] eqn:Hfind;
    [ apply list_find_Some in Hfind as (Hi & Hcond & _)
    | destruct (Article.uniqueIndexViolated (upsertUpdate rssID post) (articles w))
        eqn:Hidx ] ];
  cbn.

Lemma step_frame :
  feeds (world r) = feeds w /\ streamFaults (world r) = streamFaults w /\
  clock (world r) = clock w /\ web (world r) = web w /\
  objectIds (world r) = objectIds w /\
  upsertFaults (world r) = tail (upsertFaults w).
Proof. cases; done. Qed.

Lemma step_keys :
  map docKey (articles (world r)) =
  map docKey (articles w) ++ map docKey (inserted (outcome r)).
Proof.
  cases; rewrite ?app_nil_r; try done.
  - rewrite list_fmap_insert. apply list_insert_id.
    rewrite list_lookup_fmap, Hi. cbn.
    by rewrite (upsertConditions_key _ _ _ Hcond).
  - by rewrite fmap_app.
Qed.

Lemma step_new x :
  x ∈ inserted (outcome r) ->
  body x = upsertUpdate rssID post /\ docKey x ∉ map docKey (articles w).
Proof.
  cases; try (intros H; by apply elem_of_nil in H).
  intros ->%list_elem_of_singleton. split; [done|].
  by apply uniqueIndexViolated_false in Hidx.
Qed.

Lemma step_untouched (P : Doc -> bool) :
  (forall d, P d = true -> docKey d <> (rssID, Post.url post)) ->
  List.filter P (articles (world r)) = List.filter P (articles w).
Proof.
  intros HP.
  assert (forall d, docKey d = (rssID, Post.url post) -> P d = false) as HP'.
  { intros d Hd. destruct (P d) eqn:E; [|done]. by apply HP in E. }
  cases; try done.
  - apply (filter_insert_false P _ i d); [done| |].
    + apply HP'. by apply upsertConditions_key.
    + by apply HP'.
  - apply filter_snoc_false. by apply HP'.
Qed.

Lemma step_events :
  events r = [upsertEvent rssID post] \/
  events r = [upsertEvent rssID post; ignoredEvent].
Proof. cases; auto. Qed.

Lemma step_rejected e :
  outcome r = Rejected e ->
  pending (upsertFaults w) = Some e /\ code e <> Some duplicateKeyError.
Proof.
  cases; try done. intros [= ->]. split; [done|].
  by apply bool_decide_eq_false in Hcode.
Qed.
End UpsertStep.

(** ** Runs of a batch of upserts *)

Lemma promiseAll_cons {A} (p : M A) (ps : list (M A)) w :
  promiseAll (p :: ps) w =
  mkRun
    match outcome (p w) with
    | Rejected err => Rejected err
    | Resolved a =>
        match outcome (promiseAll ps (world (p w))) with
        | Resolved l => Resolved (a :: l)
        | Rejected err => Rejected err
        end
    end
    (world (promiseAll ps (world (p w))))
    (events (p w) ++ events (promiseAll ps (world (p w)))).
Proof. reflexivity. Qed.


Lemma promiseAll_emit {A} (f : A -> Event) (l : list A) w :
  promiseAll (map (fun a => emit (f a)) l) w =
  mkRun (Resolved (map (fun _ => tt) l)) w (map f l).
Proof.
  induction l as [|a l IH]; [done|].
  cbn [map]. rewrite promiseAll_cons. cbn. by rewrite IH.
Qed.

Section Batch.
Variable rssID : string.

Lemma batch_cons post posts w :
  batch rssID (post :: posts) w =
  mkRun
    match outcome (upsertArticle rssID post w) with
    | Rejected err => Rejected err
    | Resolved a =>
        match outcome (batch rssID posts (world (upsertArticle rssID post w))) with
        | Resolved l => Resolved (a :: l)
        | Rejected err => Rejected err
        end
    end
    (world (batch rssID posts (world (upsertArticle rssID post w))))
    (events (upsertArticle rssID post w)
       ++ events (batch rssID posts (world (upsertArticle rssID post w)))).
Proof. reflexivity. Qed.

Lemma batch_frame posts w :
  feeds (world (batch rssID posts w)) = feeds w /\
  streamFaults (world (batch rssID posts w)) = streamFaults w /\
  clock (world (batch rssID posts w)) = clock w /\
  web (world (batch rssID posts w)) = web w /\
  objectIds (world (batch rssID posts w)) = objectIds w /\
  upsertFaults (world (batch rssID posts w)) = drop (length posts) (upsertFaults w).
Proof.
  revert w. induction posts as [|post posts IH]; intros w; [done|].
  rewrite batch_cons. cbn [world].
  destruct (IH (world (upsertArticle rssID post w))) as (-> & -> & -> & -> & -> & ->).
  destruct (step_frame rssID post w) as (-> & -> & -> & -> & -> & ->).
  repeat split. destruct (upsertFaults w); cbn; [apply drop_nil | done].
Qed.

Lemma batch_keys posts w :
  exists extra,
    map docKey (articles (world (batch rssID posts w))) =
      map docKey (articles w) ++ extra /\
    forall all, outcome (batch rssID posts w) = Resolved all ->
      extra = map docKey (omap truthy all).
Proof.
  revert w. induction posts as [|post posts IH]; intros w.
  - exists []. cbn. rewrite app_nil_r. split; [done|]. by intros all [= <-].
  - rewrite batch_cons. cbn [world outcome].
    destruct (IH (world (upsertArticle rssID post w))) as (extra & -> & Hall).
    pose proof (step_keys rssID post w) as Hk. cbn zeta in Hk. rewrite Hk.
    eexists. rewrite <- app_assoc. split; [done|].
    intros all Hout.
    destruct (outcome (upsertArticle rssID post w)) as [a|]; [|done].
    destruct (outcome (batch rssID posts _)) as [l|]; [|done].
    injection Hout as <-. rewrite (Hall l eq_refl).
    by destruct a.
Qed.

Lemma batch_length posts w all :
  outcome (batch rssID posts w) = Resolved all ->
  length (articles (world (batch rssID posts w))) =
  length (articles w) + length (omap truthy all).
Proof.
  intros Hout. destruct (batch_keys posts w) as (extra & Hk & Hall).
  apply (f_equal length) in Hk.
  rewrite (Hall _ Hout), length_app, !length_map in Hk. done.
Qed.

Lemma batch_new posts w all d :
  outcome (batch rssID posts w) = Resolved all ->
  d ∈ omap truthy all ->
  exists post, post ∈ posts /\ body d = upsertUpdate rssID post /\
               docKey d ∉ map docKey (articles w).
Proof.
  revert w all. induction posts as [|post posts IH]; intros w all.
  - intros [= <-] H. by apply elem_of_nil in H.
  - rewrite batch_cons. cbn [outcome]. intros Hout Hd.
    pose proof (step_new rssID post w) as Hnew. cbn zeta in Hnew.
    pose proof (step_keys rssID post w) as Hk. cbn zeta in Hk.
    destruct (outcome (upsertArticle rssID post w)) as [a|]; [|done].
    destruct (outcome (batch rssID posts _)) as [l|] eqn:Hl; [|done].
    injection Hout as <-.
    assert (d ∈ inserted (Resolved a) \/ d ∈ omap truthy l) as [Hin|Hin].
    { destruct a; cbn in Hd |- *; [|by right..].
      apply elem_of_cons in Hd as [->|Hd]; [left; apply list_elem_of_here | by right]. }
    + destruct (Hnew d Hin) as [Hb Hfresh].
      exists post. split; [apply list_elem_of_here | done].
    + destruct (IH _ _ Hl Hin) as (p & Hp & Hb & Hfresh).
      exists p. split; [by apply list_elem_of_further|]. split; [done|].
      rewrite Hk in Hfresh. intros Habs. apply Hfresh.
      apply elem_of_app. by left.
Qed.

Lemma batch_untouched (P : Doc -> bool) posts w :
  (forall post d, post ∈ posts -> P d = true -> docKey d <> (rssID, Post.url post)) ->
  List.filter P (articles (world (batch rssID posts w))) = List.filter P (articles w).
Proof.
  revert w. induction posts as [|post posts IH]; intros w HP; [done|].
  rewrite batch_cons. cbn [world]. rewrite IH.
  - apply (step_untouched rssID post w P). intros d. apply HP, list_elem_of_here.
  - intros p d Hp. apply HP. by apply list_elem_of_further.
Qed.

Lemma batch_events posts w :
  omap upsertOf (events (batch rssID posts w)) = map (upsertUpdate rssID) posts /\
  Forall (fun e => is_Some (upsertOf e) \/ e = ignoredEvent)
         (events (batch rssID posts w)).
Proof.
  revert w. induction posts as [|post posts IH]; intros w; [by split|].
  rewrite batch_cons. cbn [events].
  destruct (IH (world (upsertArticle rssID post w))) as [IH1 IH2].
  rewrite omap_app, Forall_app, IH1.
  pose proof (step_events rssID post w) as Hev. cbn zeta in Hev.
  assert (is_Some (upsertOf (upsertEvent rssID post))) as Hup by (by eexists).
  destruct Hev as [-> | ->]; cbn; (split; [done|]); (split; [|done]).
  - apply List.Forall_cons; [by left | apply List.Forall_nil].
  - apply List.Forall_cons; [by left|].
    apply List.Forall_cons; [by right | apply List.Forall_nil].
Qed.

Lemma batch_results_length posts w all :
  outcome (batch rssID posts w) = Resolved all -> length all = length posts.
Proof.
  revert w all. induction posts as [|p posts IH]; intros w all.
  - by intros [= <-].
  - rewrite batch_cons. cbn.
    destruct (outcome (upsertArticle rssID p w)); [|done].
    destruct (outcome (batch rssID posts _)) eqn:E; [|done].
    intros [= <-]. cbn. f_equal. by eapply IH.
Qed.

Lemma batch_rejected posts w e :
  outcome (batch rssID posts w) = Rejected e ->
  Some e ∈ take (length posts) (upsertFaults w) /\
  code e <> Some duplicateKeyError.
Proof.
  revert w. induction posts as [|post posts IH]; intros w; [done|].
  rewrite batch_cons. cbn [outcome]. intros Hout.
  pose proof (step_rejected rssID post w) as Hrej. cbn zeta in Hrej.
  destruct (step_frame rssID post w) as (_ & _ & _ & _ & _ & Hf).
  cbn zeta in Hf.
  assert (forall x, pending (upsertFaults w) = Some x ->
                    Some x ∈ take (length (post :: posts)) (upsertFaults w)) as Hhd.
  { intros x. destruct (upsertFaults w) as [|[y|] l]; cbn; try done.
    intros [= ->]. apply list_elem_of_here. }
  destruct (outcome (upsertArticle rssID post w)) as [a|e'].
  - destruct (outcome (batch rssID posts _)) as [l|e'] eqn:Hl; [done|].
    injection Hout as ->. destruct (IH _ Hl) as [Hin Hc]. split; [|done].
    rewrite Hf in Hin. destruct (upsertFaults w) as [|y l]; cbn in *.
    + by rewrite take_nil in Hin.
    + by apply list_elem_of_further.
  - injection Hout as ->. destruct (Hrej e eq_refl) as [Hp Hc]. auto.
Qed.

Lemma batch_resolves posts w :
  (forall e, Some e ∈ take (length posts) (upsertFaults w) ->
             code e = Some duplicateKeyError) ->
  exists all, outcome (batch rssID posts w) = Resolved all.
Proof.
  intros Hok. destruct (outcome (batch rssID posts w)) as [all|e] eqn:Hout; [eauto|].
  destruct (batch_rejected _ _ _ Hout) as [Hin Hc]. by apply Hok in Hin.
Qed.
End Batch.

(** ** Chunks *)

Lemma chunksOf_cons {A} n (l : list A) :
  l <> [] ->
  chunksOf (S n) l = take (S n) l :: chunksOf (S n) (drop (S n) l).
Proof. destruct l as [|x l]; [done|]. intros _. by simp chunksOf. Qed.

Lemma chunksOf_concat {A} n (l : list A) : concat (chunksOf (S n) l) = l.
Proof.
  remember (length l) as k eqn:Hk. revert l Hk.
  induction k as [k IH] using lt_wf_ind. intros [|x l] Hk; [by simp chunksOf|].
  simp chunksOf. cbn. f_equal. rewrite (IH (length (drop n l))).
  - apply take_drop.
  - subst k. rewrite length_drop. cbn. lia.
  - done.
Qed.


Lemma publishChunks_eq slug id l i :
  publishChunks slug id l i =
  if decide (i < length l)
  then bind (addActivities slug id (map streamActivity (slice i (i + chunkSize) l)))
            (fun _ => publishChunks slug id l (i + chunkSize))
  else ret tt.
Proof.
  simp publishChunks.
  destruct (decide (i < length l)); try simp publishChunks; reflexivity.
Qed.

Lemma quiet_pending faults : quiet faults -> pending faults = None.
Proof.
  destruct faults as [|[e|] l]; try done.
  intros H. destruct (H e). apply list_elem_of_here.
Qed.

Lemma quiet_tail faults : quiet faults -> quiet (tail faults).
Proof.
  destruct faults as [|x l]; [done|]. intros H e He. apply (H e).
  by apply list_elem_of_further.
Qed.

(** The loop publishes the chunks of the rest of the list, one call per
    chunk, and stops at the first call that the stream rejects. *)
Lemma publishChunks_run slug id l i w :
  let r := publishChunks slug id l i w in
  let chunks := chunksOf chunkSize (drop i l) in
  (feeds (world r) = feeds w /\ articles (world r) = articles w) /\
  ((outcome r = Resolved tt /\ events r = map (publishEvent slug id) chunks) \/
   (exists err k, outcome r = Rejected err /\ k < length chunks /\
      events r = map (publishEvent slug id) (take (S k) chunks))) /\
  (quiet (streamFaults w) -> outcome r = Resolved tt).
Proof.
  cbn zeta. remember (length l - i) as k eqn:Hk. revert i w Hk.
  induction k as [k IH] using lt_wf_ind. intros i w Hk.
  rewrite publishChunks_eq. destruct (decide (i < length l)) as [Hlt|Hge].
  - assert (drop i l <> []) as Hne.
    { intros E. apply (f_equal length) in E. rewrite length_drop in E. cbn in E. lia. }
    rewrite (chunksOf_cons 99 _ Hne : chunksOf chunkSize (drop i l) = _).
    change (S 99) with chunkSize.
    assert (slice i (i + chunkSize) l = take chunkSize (drop i l)) as ->.
    { unfold slice. f_equal. lia. }
    rewrite drop_drop.
    unfold bind, addActivities.
    destruct (pending (streamFaults w)) as [err|] eqn:Hpend; cbn.
    + split; [done|]. split.
      * right. exists err, 0. split; [done|]. split; [lia|]. by rewrite take_0.
      * intros Hq. by rewrite (quiet_pending _ Hq) in Hpend.
    + set (w1 := set_streamFaults (tail (streamFaults w)) w).
      destruct (IH (length l - (i + chunkSize))
                  ltac:(unfold chunkSize; lia) (i + chunkSize) w1 eq_refl)
        as ((Hf & Ha) & Hev & Hq).
      split; [by rewrite Hf, Ha|]. split.
      * destruct Hev as [[-> ->] | (err & j & -> & Hj & ->)].
        -- by left.
        -- right. exists err, (S j). split; [done|]. split; [lia|done].
      * intros Hquiet. apply Hq. by apply quiet_tail.
  - rewrite drop_ge by lia. change chunkSize with (S 99). simp chunksOf. cbn.
    split; [done|]. split; [by left|done].
Qed.

Lemma quiet_drop faults n : quiet faults -> quiet (drop n faults).
Proof. intros H e He. apply (H e). eapply subseteq_drop, He. Qed.

(** The loop takes the faults of the stream from the front of the list. *)
Lemma publishChunks_faults slug id l i w :
  exists n, streamFaults (world (publishChunks slug id l i w)) =
            drop n (streamFaults w).
Proof.
  remember (length l - i) as k eqn:Hk. revert i w Hk.
  induction k as [k IH] using lt_wf_ind. intros i w Hk.
  rewrite publishChunks_eq. destruct (decide (i < length l)) as [Hlt|Hge];
    [|by exists 0].
  unfold bind, addActivities.
  destruct (pending (streamFaults w)) as [err|]; cbn.
  - exists 1. by destruct (streamFaults w).
  - set (w1 := set_streamFaults (tail (streamFaults w)) w).
    destruct (IH (length l - (i + chunkSize))
                ltac:(unfold chunkSize; lia) (i + chunkSize) w1 eq_refl) as [n ->].
    exists (S n). subst w1. cbn. destruct (streamFaults w); [apply drop_nil | done].
Qed.

(** ** Runs of the composite steps *)

Lemma bind_resolved {A B} (m : M A) (k : A -> M B) w a w' ev :
  m w = mkRun (Resolved a) w' ev -> bind m k w = prepend ev (k a w').
Proof. unfold bind. by intros ->. Qed.

Lemma bind_rejected {A B} (m : M A) (k : A -> M B) w err w' ev :
  m w = mkRun (Rejected err) w' ev -> bind m k w = mkRun (Rejected err) w' ev.
Proof. unfold bind. by intros ->. Qed.

Lemma prepend_prepend {A} ev1 ev2 (r : Run A) :
  prepend ev1 (prepend ev2 r) = prepend (ev1 ++ ev2) r.
Proof. unfold prepend. cbn. by rewrite app_assoc. Qed.

Lemma upsertManyArticles_run rssID candidates w :
  upsertManyArticles rssID candidates w =
  match findFault candidates w with
  | Some err => mkRun (Rejected err) w [EvArticleFind rssID []]
  | None =>
      prepend
        [EvArticleFind rssID
           (map (fun a => (Post.url a, Post.contentHash a)) candidates);
         EvStatsdIncrement "winds.handle_rss.articles.already_in_mongo"
           (length (existingArticles rssID candidates w))]
        (batch rssID (articlesToUpsert rssID candidates w) w)
  end.
Proof.
  unfold upsertManyArticles, findFault.
  destruct candidates as [|a candidates].
  - destruct (emptyOr w) as [err|] eqn:He.
    + erewrite bind_rejected; [reflexivity|].
      unfold Article.find. cbn. by rewrite He.
    + erewrite bind_resolved; cycle 1.
      { unfold Article.find. cbn. rewrite He. reflexivity. }
      erewrite bind_resolved by reflexivity.
      rewrite prepend_prepend, length_map. reflexivity.
  - erewrite bind_resolved by reflexivity.
    erewrite bind_resolved by reflexivity.
    rewrite prepend_prepend, length_map. reflexivity.
Qed.

Lemma findFault_some candidates w err :
  findFault candidates w = Some err -> candidates = [].
Proof. by destruct candidates. Qed.

(** What holds of the upsert phase whether or not the query goes through. *)
Lemma upsertManyArticles_frame rssID candidates w :
  feeds (world (upsertManyArticles rssID candidates w)) = feeds w /\
  streamFaults (world (upsertManyArticles rssID candidates w)) = streamFaults w /\
  articles (world (upsertManyArticles rssID candidates w)) =
  articles (world (batch rssID (articlesToUpsert rssID candidates w) w)).
Proof.
  rewrite upsertManyArticles_run.
  destruct (findFault candidates w) as [err|] eqn:Hff.
  - apply findFault_some in Hff as ->. done.
  - cbn. destruct (batch_frame rssID (articlesToUpsert rssID candidates w) w)
      as (-> & -> & _). done.
Qed.

Lemma upsertManyArticles_events rssID candidates w :
  Forall (fun e => isUpsertPhase e = true)
         (events (upsertManyArticles rssID candidates w)) /\
  (findFault candidates w = None ->
   omap upsertOf (events (upsertManyArticles rssID candidates w)) =
   map (upsertUpdate rssID) (articlesToUpsert rssID candidates w)) /\
  (findFault candidates w <> None ->
   omap upsertOf (events (upsertManyArticles rssID candidates w)) = []).
Proof.
  rewrite upsertManyArticles_run.
  destruct (findFault candidates w) as [err|] eqn:Hff.
  - split; [by repeat constructor|]. split; [done|done].
  - cbn [events prepend]. split; [|split; [|done]].
    + repeat (apply List.Forall_cons; [done|]). cbn.
      eapply Forall_impl; [apply batch_events|].
      intros e [[u Hu] | ->]; [|done]. by destruct e.
    + intros _. cbn. apply (batch_events rssID).
Qed.

Lemma upsertManyArticles_new rssID candidates w all d :
  outcome (upsertManyArticles rssID candidates w) = Resolved all ->
  d ∈ omap truthy all ->
  exists post, post ∈ articlesToUpsert rssID candidates w /\
               body d = upsertUpdate rssID post /\
               docKey d ∉ map docKey (articles w).
Proof.
  rewrite upsertManyArticles_run.
  destruct (findFault candidates w) as [err|]; [done|].
  cbn [outcome prepend]. apply batch_new.
Qed.

Lemma upsertManyArticles_length rssID candidates w all :
  outcome (upsertManyArticles rssID candidates w) = Resolved all ->
  length (articles (world (upsertManyArticles rssID candidates w))) =
  length (articles w) + length (omap truthy all).
Proof.
  rewrite upsertManyArticles_run.
  destruct (findFault candidates w) as [err|]; [done|].
  cbn [outcome world prepend]. apply batch_length.
Qed.

Lemma upsertManyArticles_resolves rssID candidates w :
  findFault candidates w = None ->
  (forall err, Some err ∈ upsertFaults w -> code err = Some duplicateKeyError) ->
  exists all, outcome (upsertManyArticles rssID candidates w) = Resolved all.
Proof.
  intros Hff Hok. rewrite upsertManyArticles_run, Hff. cbn [outcome prepend].
  apply batch_resolves. intros err Hin. apply Hok. eapply subseteq_take, Hin.
Qed.

Lemma syncToStream_run rssID news w :
  let r := syncToStream rssID news w in
  let chunks := chunksOf chunkSize news in
  (feeds (world r) = feeds w /\ articles (world r) = articles w) /\
  ((outcome r = Resolved tt /\
    events r = map (publishEvent "rss" rssID) chunks
               ++ match news with
                  | [] => []
                  | _ => [EvSendRssFeedToCollections rssID]
                  end) \/
   (exists err k, outcome r = Rejected err /\ k < length chunks /\
      events r = map (publishEvent "rss" rssID) (take (S k) chunks)) \/
   (exists err, outcome r = Rejected err /\ news <> [] /\
      events r = map (publishEvent "rss" rssID) chunks
                 ++ [EvSendRssFeedToCollections rssID])) /\
  (quiet (streamFaults w) -> outcome r = Resolved tt).
Proof.
  cbn zeta. unfold syncToStream. destruct news as [|d news].
  - cbn. change chunkSize with (S 99). simp chunksOf.
    split; [done|]. split; [by left|done].
  - cbn [length Nat.ltb Nat.leb fst snd]. unfold bind.
    destruct (publishChunks_run "rss" rssID (d :: news) 0 w) as (Hf & Hev & Hq).
    destruct (publishChunks_faults "rss" rssID (d :: news) 0 w) as [n Hn].
    cbn zeta in Hf, Hev, Hq. rewrite drop_0 in Hev.
    destruct Hev as [[Hout ->] | (err & k & Hout & Hk & ->)]; rewrite Hout; cbn.
    + unfold sendRssFeedToCollections.
      destruct (pending (streamFaults _)) as [err|] eqn:Hpend; cbn.
      * split; [done|]. split; [right; right; by exists err|].
        intros Hquiet. rewrite Hn in Hpend.
        by rewrite (quiet_pending _ (quiet_drop _ n Hquiet)) in Hpend.
      * split; [done|]. split; [by left | done].
    + split; [done|]. split; [right; left; by exists err, k|].
      intros Hquiet; by rewrite Hq in Hout.
Qed.

#[local] Arguments upsertManyArticles : simpl never.
#[local] Arguments syncToStream : simpl never.
#[local] Arguments promiseAll : simpl never.
#[local] Arguments afterFetch : simpl never.

Section JobRuns.
Variable normalize : string -> option string.
Variable computeContentHash : Post.t -> option string.
Variables (job : Job.t) (w : World).

Let rssID := Job.rss job.
Let run := handleRSS normalize computeContentHash job w.
Let markedDone :=
  set_feeds (alter (RSS.applyPatch (PatchScraped (clock w) false)) rssID (feeds w)) w.

Lemma handleRSS_missing :
  feeds w !! rssID = None ->
  run = mkRun (Resolved tt) markedDone
          [EvRssUpdate rssID (PatchScraped (clock w) false); EvRssFindOne rssID].
Proof.
  intros Hf. subst run rssID. unfold handleRSS, timeIt, markDone.
  erewrite bind_resolved; cycle 1.
  { erewrite bind_resolved by reflexivity. reflexivity. }
  erewrite bind_resolved by reflexivity.
  cbn. rewrite lookup_alter_eq, Hf. reflexivity.
Qed.

Lemma handleRSS_fetch_rejected f err :
  feeds w !! rssID = Some f ->
  web w (Job.url job) = Rejected err ->
  run = mkRun (Rejected err)
          (set_feeds
             (alter (fun f => RSS.set_failures (S (Feed.consecutiveScrapeFailures f)) f)
                    rssID (feeds markedDone)) w)
          [EvRssUpdate rssID (PatchScraped (clock w) false); EvRssFindOne rssID;
           EvParseFeed (Job.url job); EvRssIncrScrapeFailures rssID].
Proof.
  intros Hf Hweb. subst run rssID. unfold handleRSS, timeIt, markDone.
  erewrite bind_resolved; cycle 1.
  { erewrite bind_resolved by reflexivity. reflexivity. }
  erewrite bind_resolved by reflexivity.
  cbn. rewrite lookup_alter_eq, Hf. cbn.
  erewrite bind_rejected; [reflexivity|].
  unfold tryCatch, bind, ParseFeed. cbn. rewrite Hweb. reflexivity.
Qed.

Ltac fetch_ok Hf Hweb :=
  subst run rssID; unfold handleRSS, timeIt, markDone;
  (erewrite bind_resolved;
   [|erewrite bind_resolved by reflexivity; reflexivity]);
  erewrite bind_resolved by reflexivity;
  cbn; rewrite lookup_alter_eq, Hf; cbn;
  (erewrite bind_resolved;
   [|unfold tryCatch, bind, ParseFeed; cbn; rewrite Hweb; reflexivity]).

Lemma handleRSS_no_content f :
  feeds w !! rssID = Some f ->
  web w (Job.url job) = Resolved None ->
  run = mkRun (Resolved tt) (afterFetch rssID w) (fetchEvents job w).
Proof. intros Hf Hweb. fetch_ok Hf Hweb. reflexivity. Qed.

Lemma handleRSS_no_articles f :
  feeds w !! rssID = Some f ->
  web w (Job.url job) = Resolved (Some []) ->
  run = mkRun (Resolved tt) (afterFetch rssID w) (fetchEvents job w).
Proof. intros Hf Hweb. fetch_ok Hf Hweb. reflexivity. Qed.

Lemma handleRSS_upserts f rssArticles :
  feeds w !! rssID = Some f ->
  web w (Job.url job) = Resolved (Some rssArticles) ->
  rssArticles <> [] ->
  run =
  prepend
    (fetchEvents job w
     ++ [EvStatsdIncrement "winds.handle_rss.articles.parsed" (length rssArticles);
         EvStatsdTiming "winds.handle_rss.articles.parsed" (Some (length rssArticles))])
    (afterUpserts rssID
       (upsertManyArticles rssID
          (omap (normalizeArticle normalize computeContentHash) rssArticles)
          (afterFetch rssID w))).
Proof.
  intros Hf Hweb Hne. fetch_ok Hf Hweb.
  destruct rssArticles as [|a rssArticles]; [done|].
  cbn [length Nat.eqb].
  erewrite bind_resolved by reflexivity.
  erewrite bind_resolved by reflexivity.
  rewrite !prepend_prepend. cbn [app]. unfold fetchEvents. cbn [app].
  f_equal. unfold afterUpserts.
  match goal with |- _ (set_feeds ?g (set_feeds _ w)) = _ =>
    change (set_feeds g (set_feeds _ w)) with (afterFetch (Job.rss job) w) end.
  match goal with |- context [upsertManyArticles ?i ?c ?x] =>
    destruct (upsertManyArticles i c x) as [[all|err] w2 ev2] eqn:Hb end.
  - erewrite bind_resolved by exact Hb.
    erewrite bind_resolved by reflexivity.
    erewrite bind_resolved by reflexivity.
    erewrite bind_resolved by reflexivity.
    erewrite bind_resolved by apply promiseAll_emit.
    cbn [outcome world events].
    match goal with |- context [syncToStream ?i ?l ?x] =>
      destruct (syncToStream i l x) as [[[]|err] w3 ev3] eqn:Hs end.
    + erewrite bind_resolved by exact Hs. unfold prepend. cbn.
      by rewrite <- ?app_assoc.
    + erewrite bind_rejected by exact Hs. unfold prepend. cbn.
      by rewrite <- ?app_assoc, ?app_nil_r.
  - erewrite bind_rejected by exact Hb. reflexivity.
Qed.

(** Every run of a job takes one of four courses. *)
Lemma handleRSS_cases :
  (feeds w !! rssID = None /\
   run = mkRun (Resolved tt) markedDone
           [EvRssUpdate rssID (PatchScraped (clock w) false); EvRssFindOne rssID]) \/
  (exists f err, feeds w !! rssID = Some f /\ web w (Job.url job) = Rejected err /\
     run = mkRun (Rejected err)
             (set_feeds
                (alter (fun f => RSS.set_failures (S (Feed.consecutiveScrapeFailures f)) f)
                       rssID (feeds markedDone)) w)
             [EvRssUpdate rssID (PatchScraped (clock w) false); EvRssFindOne rssID;
              EvParseFeed (Job.url job); EvRssIncrScrapeFailures rssID]) \/
  (exists f, feeds w !! rssID = Some f /\
     (web w (Job.url job) = Resolved None \/ web w (Job.url job) = Resolved (Some [])) /\
     run = mkRun (Resolved tt) (afterFetch rssID w) (fetchEvents job w)) \/
  (exists f rssArticles, feeds w !! rssID = Some f /\
     web w (Job.url job) = Resolved (Some rssArticles) /\ rssArticles <> [] /\
     run =
     prepend
       (fetchEvents job w
        ++ [EvStatsdIncrement "winds.handle_rss.articles.parsed" (length rssArticles);
            EvStatsdTiming "winds.handle_rss.articles.parsed"
              (Some (length rssArticles))])
       (afterUpserts rssID
          (upsertManyArticles rssID (candidatesOf normalize computeContentHash job w)
             (afterFetch rssID w)))).
Proof.
  destruct (feeds w !! rssID) as [f|] eqn:Hf.
  - right. destruct (web w (Job.url job)) as [[arts|]|err] eqn:Hweb.
    + destruct (decide (arts = [])) as [->|Hne].
      * right. left. exists f. split; [done|]. split; [by right|].
        by apply (handleRSS_no_articles f).
      * right. right. exists f, arts. repeat split; try done.
        unfold candidatesOf. rewrite Hweb. by apply (handleRSS_upserts f).
    + right. left. exists f. split; [done|]. split; [by left|].
      by apply (handleRSS_no_content f).
    + left. exists f, err. repeat split; try done.
      by apply (handleRSS_fetch_rejected f).
  - left. split; [done|]. by apply handleRSS_missing.
Qed.
End JobRuns.

(** ** The existence prefilter *)

Lemma existingArticles_spec rssID candidates w u h :
  (u, h) ∈ existingArticles rssID candidates w <->
  exists d, exactMatch rssID candidates w d /\
            Update.url (body d) = u /\ Update.contentHash (body d) = h.
Proof.
  unfold existingArticles, exactMatch.
  rewrite list_elem_of_fmap. split.
  - intros (d & [= -> ->] & Hd).
    apply list_elem_of_In, filter_In in Hd as [Hd Hc].
    apply andb_true_iff in Hc as [Hr Hp].
    apply bool_decide_eq_true in Hr, Hp.
    apply list_elem_of_fmap in Hp as (c & [= Hu Hh] & Hc).
    exists d. repeat split; try done.
    + by apply list_elem_of_In.
    + by exists c.
  - intros (d & (Hd & Hr & c & Hc & Hu & Hh) & <- & <-).
    exists d. split; [done|].
    apply list_elem_of_In, filter_In. split; [by apply list_elem_of_In|].
    apply andb_true_iff. split; apply bool_decide_eq_true; [done|].
    apply list_elem_of_fmap. exists c. split; [congruence|done].
Qed.

Lemma existing_url rssID candidates w u :
  u ∈ map fst (existingArticles rssID candidates w) <->
  exists d, exactMatch rssID candidates w d /\ Update.url (body d) = u.
Proof.
  rewrite list_elem_of_fmap. split.
  - intros ([u' h] & -> & Hin). apply existingArticles_spec in Hin as (d & ? & ? & ?).
    by exists d.
  - intros (d & Hd & <-). exists (Update.url (body d), Update.contentHash (body d)).
    split; [done|]. apply existingArticles_spec. by exists d.
Qed.

Lemma existing_hash rssID candidates w h :
  h ∈ map snd (existingArticles rssID candidates w) <->
  exists d, exactMatch rssID candidates w d /\ Update.contentHash (body d) = h.
Proof.
  rewrite list_elem_of_fmap. split.
  - intros ([u h'] & -> & Hin). apply existingArticles_spec in Hin as (d & ? & ? & ?).
    by exists d.
  - intros (d & Hd & <-). exists (Update.url (body d), Update.contentHash (body d)).
    split; [done|]. apply existingArticles_spec. by exists d.
Qed.

Lemma articlesToUpsert_spec rssID candidates w a :
  a ∈ articlesToUpsert rssID candidates w <->
  a ∈ candidates /\
  (forall d, exactMatch rssID candidates w d -> Update.url (body d) <> Post.url a) /\
  (forall d, exactMatch rssID candidates w d ->
             Update.contentHash (body d) <> Post.contentHash a).
Proof.
  unfold articlesToUpsert.
  rewrite list_elem_of_In, filter_In, <- list_elem_of_In.
  unfold needsSync, includes.
  rewrite andb_true_iff, !negb_true_iff, !bool_decide_eq_false.
  rewrite existing_url, existing_hash. split.
  - intros (Ha & Hu & Hh). split; [done|]. split; intros d Hd E.
    + apply Hu. by exists d.
    + apply Hh. by exists d.
  - intros (Ha & Hu & Hh). split; [done|].
    split; intros (d & Hd & E); [by apply (Hu d) | by apply (Hh d)].
Qed.

(** C1. The prefilter of [upsertManyArticles] keeps a candidate exactly when
    no stored article of the feed that matches some candidate pair for pair
    has the candidate's url, and none has its contentHash; the writes that
    the run makes to the article collection are those of the kept
    candidates, one each and in their order, so a candidate that fails
    either test gets no write and no result. *)
Theorem prefilter_two_set_test rssID candidates w a :
  a ∈ candidates ->
  let r := upsertManyArticles rssID candidates w in
  let kept := articlesToUpsert rssID candidates w in
  (a ∈ kept <->
     (forall d, exactMatch rssID candidates w d ->
                Update.url (body d) <> Post.url a) /\
     (forall d, exactMatch rssID candidates w d ->
                Update.contentHash (body d) <> Post.contentHash a)) /\
  omap upsertOf (events r) = map (upsertUpdate rssID) kept /\
  (upsertUpdate rssID a ∈ omap upsertOf (events r) <-> a ∈ kept) /\
  (forall all, outcome r = Resolved all -> length all = length kept).
Proof.
  intros Ha r kept. subst r kept.
  assert (findFault candidates w = None) as Hff.
  { destruct candidates; [by apply elem_of_nil in Ha | done]. }
  destruct (upsertManyArticles_events rssID candidates w) as (_ & Hev & _).
  specialize (Hev Hff).
  split; [|split; [done|split]].
  - rewrite articlesToUpsert_spec. split; [by intros (_ & ? & ?) | by intros [? ?]].
  - rewrite Hev, list_elem_of_fmap. split; [|by exists a].
    intros (c & Hc & Hin).
    apply articlesToUpsert_spec in Hin as (_ & Hu & Hh).
    apply articlesToUpsert_spec. split; [done|].
    assert (Post.url c = Post.url a /\ Post.contentHash c = Post.contentHash a) as [<- <-].
    { unfold upsertUpdate in Hc. by injection Hc. }
    done.
  - rewrite upsertManyArticles_run, Hff. cbn [outcome prepend].
    apply batch_results_length.
Qed.

(** Closed decidable statements, by evaluation. *)
Ltac by_compute := apply (bool_decide_unpack _); vm_compute; exact I.

(** C4. The two-set test over-filters.  A candidate that shares its url, or
    its contentHash, with a stored article that matches some candidate pair
    for pair is dropped, whatever the rest of it.  So, with article
    (a.com/1, h1) stored and resubmitted as it is, a candidate under the new
    url a.com/2 that has the same contentHash h1 is dropped, and so is a
    candidate for a.com/1 with the new contentHash h2, although no stored
    article has either candidate's (url, contentHash): neither gets a write,
    and the store stays as it was. *)
Theorem prefilter_drops_new_content :
  (forall rssID candidates w c d,
      exactMatch rssID candidates w d ->
      Update.url (body d) = Post.url c \/
      Update.contentHash (body d) = Post.contentHash c ->
      c ∉ articlesToUpsert rssID candidates w) /\
  exists rssID w,
    (exists candidates c,
        c ∈ candidates /\
        (forall d, d ∈ articles w -> Update.url (body d) <> Post.url c) /\
        (exists d, exactMatch rssID candidates w d /\
                   Update.url (body d) <> Post.url c /\
                   Update.contentHash (body d) = Post.contentHash c) /\
        (c ∉ articlesToUpsert rssID candidates w) /\
        (upsertUpdate rssID c
           ∉ omap upsertOf (events (upsertManyArticles rssID candidates w))) /\
        articles (world (upsertManyArticles rssID candidates w)) = articles w) /\
    (exists candidates c,
        c ∈ candidates /\
        (forall d, d ∈ articles w ->
                   Update.contentHash (body d) <> Post.contentHash c) /\
        (exists d, exactMatch rssID candidates w d /\
                   Update.url (body d) = Post.url c /\
                   Update.contentHash (body d) <> Post.contentHash c) /\
        (c ∉ articlesToUpsert rssID candidates w) /\
        (upsertUpdate rssID c
           ∉ omap upsertOf (events (upsertManyArticles rssID candidates w))) /\
        articles (world (upsertManyArticles rssID candidates w)) = articles w).
Proof.
  split.
  { intros rssID candidates w c d Hd Hshare Hin.
    apply articlesToUpsert_spec in Hin as (_ & Hu & Hh).
    destruct Hshare as [E|E]; [by apply (Hu d) | by apply (Hh d)]. }
  set (stored := sampleDoc "5a00000000000000000000aa" "F" "a.com/1" "h1" "T").
  set (dup := samplePost "a.com/1" "h1" "T").
  exists "F", (sampleWorld [stored] [] (Resolved None)). split.
  - exists [dup; samplePost "a.com/2" "h1" "T"], (samplePost "a.com/2" "h1" "T").
    split; [by_compute|].
    split; [intros d ->%list_elem_of_singleton; by cbn|].
    split.
    { exists stored. split; [|by split].
      split; [apply list_elem_of_here|]. split; [done|].
      exists dup. split; [apply list_elem_of_here | by split]. }
    split; [by_compute|].
    split; [by_compute | reflexivity].
  - exists [dup; samplePost "a.com/1" "h2" "T2"], (samplePost "a.com/1" "h2" "T2").
    split; [by_compute|].
    split; [intros d ->%list_elem_of_singleton; by cbn|].
    split.
    { exists stored. split; [|by split].
      split; [apply list_elem_of_here|]. split; [done|].
      exists dup. split; [apply list_elem_of_here | by split]. }
    split; [by_compute|].
    split; [by_compute | reflexivity].
Qed.

Lemma prefilter_two_set_test_witness :
  let candidates := [samplePost "a.com/1" "h1" "T"; samplePost "a.com/2" "h2" "U"] in
  let w := sampleWorld [sampleDoc "5a00000000000000000000aa" "F" "a.com/1" "h1" "T"]
                       [] (Resolved None) in
  samplePost "a.com/2" "h2" "U" ∈ candidates /\
  omap upsertOf (events (upsertManyArticles "F" candidates w)) =
  map (upsertUpdate "F") (articlesToUpsert "F" candidates w).
Proof.
  cbn zeta. split; [by_compute|].
  apply (prefilter_two_set_test "F" _ _ (samplePost "a.com/2" "h2" "U")).
  by_compute.
Defined.

(** ** What a job announces *)

Lemma omap_ogOf_quiet (l : list Event) :
  Forall (fun e => ogOf e = None) l -> omap ogOf l = [].
Proof. induction 1 as [|e l He _ IH]; [done|]. cbn. by rewrite He, IH. Qed.

Lemma omap_ogOf_enrichment (news : list Doc) :
  omap ogOf (map (fun d => EvOgQueueAdd "article" (Update.url (body d))) news) =
  map (fun d => Update.url (body d)) news.
Proof. induction news as [|d news IH]; [done|]. cbn. by rewrite IH. Qed.

Lemma chunksOf_elem {A} n (l chunk : list A) x :
  chunk ∈ chunksOf (S n) l -> x ∈ chunk -> x ∈ l.
Proof.
  intros Hc Hx. rewrite <- (chunksOf_concat n l).
  apply list_elem_of_In, in_concat. exists chunk.
  split; by apply list_elem_of_In.
Qed.

(** The calls of a synchronisation: one per chunk, then the collections. *)
Lemma syncToStream_events rssID news w :
  Forall
    (fun e =>
       (exists chunk, chunk ∈ chunksOf chunkSize news /\
                      e = publishEvent "rss" rssID chunk) \/
       (e = EvSendRssFeedToCollections rssID /\ news <> []))
    (events (syncToStream rssID news w)).
Proof.
  destruct (syncToStream_run rssID news w) as (_ & Hev & _). cbn zeta in Hev.
  apply Forall_forall. intros e He.
  destruct Hev as [[_ Hev] | [(err & k & _ & _ & Hev) | (err & _ & Hne & Hev)]];
    rewrite Hev in He.
  - apply elem_of_app in He as [He|He].
    + apply list_elem_of_fmap in He as (chunk & -> & Hc). left. by exists chunk.
    + destruct news; [by apply elem_of_nil in He|].
      apply list_elem_of_singleton in He. by right.
  - apply list_elem_of_fmap in He as (chunk & -> & Hc). left. exists chunk.
    split; [|done]. eapply subseteq_take, Hc.
  - apply elem_of_app in He as [He|He].
    + apply list_elem_of_fmap in He as (chunk & -> & Hc). left. by exists chunk.
    + apply list_elem_of_singleton in He. by right.
Qed.

Lemma syncToStream_no_enrichment rssID news w :
  omap ogOf (events (syncToStream rssID news w)) = [].
Proof.
  apply omap_ogOf_quiet.
  eapply Forall_impl; [apply syncToStream_events|].
  by intros e [(chunk & _ & ->) | [-> _]].
Qed.

(** Membership in a list that is written out. *)
Ltac in_explicit H :=
  repeat (apply elem_of_cons in H as [H|H]; [try discriminate H|]);
  try (by apply elem_of_nil in H).

Section JobAnnouncements.
Variable normalize : string -> option string.
Variable computeContentHash : Post.t -> option string.
Variables (job : Job.t) (w : World).

Let rssID := Job.rss job.
Let run := handleRSS normalize computeContentHash job w.
Let kept := keptOf (candidatesOf normalize computeContentHash job w) rssID w.

(** The documents a job announces are documents it has just inserted: each
    is the update of a kept candidate under a key that the store did not
    hold when the job began. *)
Lemma handleRSS_news :
  exists news : list Doc,
    Forall (fun d => exists post, post ∈ kept /\ body d = upsertUpdate rssID post /\
                                  docKey d ∉ map docKey (articles w)) news /\
    omap ogOf (events run) = map (fun d => Update.url (body d)) news /\
    (forall slug id acts, EvAddActivities slug id acts ∈ events run ->
       slug = "rss" /\ id = rssID /\
       exists chunk, chunk ∈ chunksOf chunkSize news /\ acts = map streamActivity chunk) /\
    (forall id, EvSendRssFeedToCollections id ∈ events run -> id = rssID /\ news <> []) /\
    (length (articles (world run)) = length (articles w) -> news = []).
Proof.
  destruct (handleRSS_cases normalize computeContentHash job w)
    as [[Hf Hrun] | [(f & err & Hf & Hweb & Hrun) | [(f & Hf & Hweb & Hrun) |
        (f & arts & Hf & Hweb & Hne & Hrun)]]];
    cbn zeta in Hrun; subst run; rewrite Hrun; clear Hrun.
  1-3: exists []; split; [apply List.Forall_nil|]; split; [done|];
       split; [intros slug id acts H; cbn in H; in_explicit H|];
       split; [intros id H; cbn in H; in_explicit H | done].
  fold rssID. unfold afterUpserts. cbn [outcome world events prepend].
  set (b := upsertManyArticles rssID _ (afterFetch rssID w)).
  destruct (upsertManyArticles_events rssID
              (candidatesOf normalize computeContentHash job w) (afterFetch rssID w))
    as (Hq & _). fold b in Hq.
  assert (omap ogOf (events b) = []) as Hbog.
  { apply omap_ogOf_quiet. eapply Forall_impl; [exact Hq|]. intros e. by destruct e. }
  rewrite Forall_forall in Hq.
  destruct (outcome b) as [all|err] eqn:Hout; cbn [outcome world events].
  - exists (omap truthy all).
    match goal with |- context [syncToStream ?i ?l ?x] => set (s := syncToStream i l x) end.
    assert (Forall
              (fun e =>
                 (exists chunk, chunk ∈ chunksOf chunkSize (omap truthy all) /\
                                e = publishEvent "rss" rssID chunk) \/
                 (e = EvSendRssFeedToCollections rssID /\ omap truthy all <> []))
              (events s)) as Hs by apply syncToStream_events.
    assert (omap ogOf (events s) = []) as Hog by apply syncToStream_no_enrichment.
    rewrite Forall_forall in Hs.
    split; [|split; [|split; [|split]]].
    + apply Forall_forall. intros d Hd.
      by apply (upsertManyArticles_new rssID _ (afterFetch rssID w) all).
    + rewrite !omap_app, Hog, Hbog, omap_ogOf_enrichment.
      cbn. destruct (outcome s); cbn; apply app_nil_r.
    + intros slug id acts H.
      assert (EvAddActivities slug id acts ∈ events s) as Hin.
      { repeat (apply elem_of_app in H as [H|H]); try (cbn in H; in_explicit H).
        - by apply Hq in H.
        - by apply list_elem_of_fmap in H as (? & ? & ?).
        - done.
        - destruct (outcome s); cbn in H; in_explicit H. }
      destruct (Hs _ Hin) as [(chunk & Hc & [= -> -> ->]) | [? _]]; [|done].
      split; [done|]. split; [done|]. by exists chunk.
    + intros id H.
      assert (EvSendRssFeedToCollections id ∈ events s) as Hin.
      { repeat (apply elem_of_app in H as [H|H]); try (cbn in H; in_explicit H).
        - by apply Hq in H.
        - by apply list_elem_of_fmap in H as (? & ? & ?).
        - done.
        - destruct (outcome s); cbn in H; in_explicit H. }
      destruct (Hs _ Hin) as [(chunk & Hc & ?) | [[= ->] ?]]; done.
    + destruct (syncToStream_run rssID (omap truthy all)
                  (set_feeds
                     (alter (RSS.applyPatch
                               (PatchPostCount (articleCount rssID (world b))))
                            rssID (feeds (world b)))
                     (world b))) as ((_ & Ha) & _).
      cbn zeta in Ha. fold s in Ha. rewrite Ha. cbn [articles set_feeds].
      pose proof (upsertManyArticles_length rssID _ (afterFetch rssID w) all Hout) as Hl.
      fold b in Hl. rewrite Hl.
      unfold afterFetch. cbn [articles set_feeds]. intros Hlen.
      apply nil_length_inv. lia.
  - exists []. split; [apply List.Forall_nil|].
    split; [|split; [|split]].
    + by rewrite !omap_app, Hbog.
    + intros slug id acts H.
      repeat (apply elem_of_app in H as [H|H]); try (cbn in H; in_explicit H).
      by apply Hq in H.
    + intros id H.
      repeat (apply elem_of_app in H as [H|H]); try (cbn in H; in_explicit H).
      by apply Hq in H.
    + done.
Qed.
End JobAnnouncements.

(** ** The job controller *)

Lemma alter_missing {A} (g : A -> A) (i : string) (m : gmap string A) :
  m !! i = None -> alter g i m = m.
Proof.
  intros Hi. apply map_eq. intros j. rewrite lookup_alter.
  destruct (decide (i = j)) as [<-|]; [by rewrite Hi | done].
Qed.

Lemma afterUpserts_world rssID (b : Run (list UpsertResult)) :
  articles (world (afterUpserts rssID b)) = articles (world b) /\
  feeds (world (afterUpserts rssID b)) =
  match outcome b with
  | Resolved _ =>
      alter (RSS.applyPatch (PatchPostCount (articleCount rssID (world b))))
            rssID (feeds (world b))
  | Rejected _ => feeds (world b)
  end.
Proof.
  unfold afterUpserts. destruct (outcome b) as [all|err]; [|done].
  cbn [world].
  match goal with |- context [syncToStream ?i ?l ?x] =>
    destruct (syncToStream_run i l x) as ((-> & ->) & _) end.
  done.
Qed.

Section JobFeed.
Variable normalize : string -> option string.
Variable computeContentHash : Post.t -> option string.
Variables (job : Job.t) (w : World).

Let rssID := Job.rss job.
Let run := handleRSS normalize computeContentHash job w.

(** The feed after a job: marked as done at the time of the job, with the
    failure count that the fetch leaves. *)
Lemma handleRSS_feed f :
  feeds w !! rssID = Some f ->
  exists f', feeds (world run) !! rssID = Some f' /\
    Feed.lastScraped f' = clock w /\ Feed.isParsing f' = false /\
    Feed.consecutiveScrapeFailures f' =
      match web w (Job.url job) with
      | Resolved _ => 0
      | Rejected _ => S (Feed.consecutiveScrapeFailures f)
      end.
Proof.
  intros Hf.
  destruct (handleRSS_cases normalize computeContentHash job w)
    as [[Hf' Hrun] | [(f0 & err & _ & Hweb & Hrun) | [(f0 & _ & Hweb & Hrun) |
        (f0 & arts & _ & Hweb & Hne & Hrun)]]];
    cbn zeta in Hrun; subst run; rewrite Hrun; clear Hrun.
  - fold rssID in Hf'. congruence.
  - rewrite Hweb. cbn -[lookup alter]. fold rssID.
    rewrite !lookup_alter_eq, Hf. cbn. eauto.
  - assert (exists c, web w (Job.url job) = Resolved c) as [c ->]
      by (destruct Hweb as [-> | ->]; eauto).
    unfold afterFetch. cbn -[lookup alter]. fold rssID.
    rewrite !lookup_alter_eq, Hf. cbn. eauto.
  - rewrite Hweb. cbn [world prepend]. fold rssID.
    destruct (afterUpserts_world rssID
                (upsertManyArticles rssID
                   (candidatesOf normalize computeContentHash job w)
                   (afterFetch rssID w))) as [_ ->].
    destruct (upsertManyArticles_frame rssID
                (candidatesOf normalize computeContentHash job w)
                (afterFetch rssID w)) as (-> & _).
    destruct (outcome _); unfold afterFetch; cbn -[lookup alter];
      rewrite !lookup_alter_eq, Hf; cbn; eauto.
Qed.
End JobFeed.

(** C9. The first call of every job is the write of [markDone], which sets
    [isParsing] to false and [lastScraped] to the current time; the look-up
    of the feed comes second, and the fetch and every read or write of the
    article collection come later still.  The write is attempted also when
    the feed is gone: the store is left as it was and the job ends after the
    look-up. *)
Theorem markDone_comes_first normalize computeContentHash job w :
  let run := handleRSS normalize computeContentHash job w in
  let rssID := Job.rss job in
  (exists rest,
      events run = markDoneEvent rssID w :: EvRssFindOne rssID :: rest /\
      Forall (fun e => e <> EvRssFindOne rssID) rest) /\
  isLaterCall (markDoneEvent rssID w) = false /\
  (forall i e, events run !! i = Some e -> isLaterCall e = true -> 0 < i) /\
  (forall f, feeds w !! rssID = Some f ->
     exists f', feeds (world run) !! rssID = Some f' /\
                Feed.isParsing f' = false /\ Feed.lastScraped f' = clock w) /\
  (feeds w !! rssID = None ->
     events run = [markDoneEvent rssID w; EvRssFindOne rssID] /\
     outcome run = Resolved tt /\
     feeds (world run) = feeds w /\ articles (world run) = articles w).
Proof.
  intros run rssID.
  assert (exists rest,
             events run = markDoneEvent rssID w :: EvRssFindOne rssID :: rest /\
             Forall (fun e => e <> EvRssFindOne rssID) rest) as Hhead.
  { destruct (handleRSS_cases normalize computeContentHash job w)
      as [[Hf Hrun] | [(f0 & err & _ & Hweb & Hrun) | [(f0 & _ & Hweb & Hrun) |
          (f0 & arts & _ & Hweb & Hne & Hrun)]]];
      cbn zeta in Hrun; subst run; rewrite Hrun; clear Hrun.
    1-3: eexists; split; [reflexivity|]; repeat (apply List.Forall_cons; [done|]);
         apply List.Forall_nil.
    eexists. split; [reflexivity|].
    repeat (apply List.Forall_cons; [done|]).
    unfold afterUpserts. cbn [outcome world events prepend].
    set (b := upsertManyArticles _ _ _).
    assert (Forall (fun e => e <> EvRssFindOne rssID) (events b)) as Hb.
    { eapply Forall_impl; [apply upsertManyArticles_events|].
      intros e. by destruct e. }
    destruct (outcome b) as [all|err]; cbn [events]; [|done].
    rewrite !Forall_app. split; [done|].
    split; [repeat (apply List.Forall_cons; [done|]); apply List.Forall_nil|].
    split; [apply Forall_forall; by intros e (d & -> & _)%list_elem_of_fmap|].
    split.
    - eapply Forall_impl; [apply syncToStream_events|].
      by intros e [(chunk & _ & ->) | [-> _]].
    - destruct (outcome _); repeat (apply List.Forall_cons; [done|]);
        apply List.Forall_nil. }
  split; [done|]. split; [done|]. split; [|split].
  - destruct Hhead as (rest & -> & _). intros [|i] e; [|lia].
    intros [= <-]. done.
  - intros f Hf.
    destruct (handleRSS_feed normalize computeContentHash job w f Hf)
      as (f' & ? & ? & ? & _).
    by exists f'.
  - intros Hf.
    pose proof (handleRSS_missing normalize computeContentHash job w Hf) as Hrun.
    cbn zeta in Hrun. subst run. rewrite Hrun. cbn.
    split; [done|]. split; [done|]. split; [by apply alter_missing | done].
Qed.

Lemma handleRSS_reset_called normalize computeContentHash job w f c :
  feeds w !! Job.rss job = Some f ->
  web w (Job.url job) = Resolved c ->
  EvRssResetScrapeFailures (Job.rss job)
    ∈ events (handleRSS normalize computeContentHash job w).
Proof.
  intros Hf Hweb.
  destruct (handleRSS_cases normalize computeContentHash job w)
    as [[Hf' Hrun] | [(f0 & err & _ & Hweb' & Hrun) | [(f0 & _ & _ & Hrun) |
        (f0 & arts & _ & _ & _ & Hrun)]]];
    cbn zeta in Hrun; rewrite Hrun; clear Hrun; try congruence.
  - cbn. do 3 apply list_elem_of_further. apply list_elem_of_here.
  - cbn. do 3 apply list_elem_of_further. apply list_elem_of_here.
Qed.

(** C5. Around the fetch of a feed that exists: when [ParseFeed] resolves,
    the job resets the feed's consecutive failure count, which is 0 when the
    job ends whatever it was before; when [ParseFeed] rejects, the count is
    one more than before, the job rejects with the same error, and apart
    from the four calls up to the increment nothing happens: no article is
    written, and the article collection is as it was. *)
Theorem fetch_failure_counter normalize computeContentHash job w f :
  feeds w !! Job.rss job = Some f ->
  let run := handleRSS normalize computeContentHash job w in
  let rssID := Job.rss job in
  (forall c, web w (Job.url job) = Resolved c ->
     EvRssResetScrapeFailures rssID ∈ events run /\
     exists f', feeds (world run) !! rssID = Some f' /\
                Feed.consecutiveScrapeFailures f' = 0) /\
  (forall err, web w (Job.url job) = Rejected err ->
     outcome run = Rejected err /\
     events run = [markDoneEvent rssID w; EvRssFindOne rssID;
                   EvParseFeed (Job.url job); EvRssIncrScrapeFailures rssID] /\
     (exists f', feeds (world run) !! rssID = Some f' /\
                 Feed.consecutiveScrapeFailures f' =
                 S (Feed.consecutiveScrapeFailures f)) /\
     articles (world run) = articles w /\
     omap upsertOf (events run) = []).
Proof.
  intros Hf run rssID.
  destruct (handleRSS_feed normalize computeContentHash job w f Hf)
    as (f' & Hf' & _ & _ & Hcount). fold run rssID in Hf'.
  split.
  - intros c Hweb. rewrite Hweb in Hcount. split; [|by exists f'].
    by apply (handleRSS_reset_called _ _ _ _ f c).
  - intros err Hweb. rewrite Hweb in Hcount.
    pose proof (handleRSS_fetch_rejected normalize computeContentHash job w f err
                  Hf Hweb) as Hrun.
    cbn zeta in Hrun. fold run in Hrun.
    split; [by rewrite Hrun|]. split; [by rewrite Hrun|].
    split; [by exists f'|]. by rewrite Hrun.
Qed.

Lemma rejected_batch_aborts_job normalize computeContentHash job w f rssArticles err :
  feeds w !! Job.rss job = Some f ->
  web w (Job.url job) = Resolved (Some rssArticles) ->
  rssArticles <> [] ->
  outcome (upsertManyArticles (Job.rss job)
             (candidatesOf normalize computeContentHash job w)
             (afterFetch (Job.rss job) w)) = Rejected err ->
  outcome (handleRSS normalize computeContentHash job w) = Rejected err /\
  Forall (fun e => isAfterUpserts e = false)
         (events (handleRSS normalize computeContentHash job w)).
Proof.
  intros Hf Hweb Hne Hout.
  pose proof (handleRSS_upserts normalize computeContentHash job w f rssArticles
                Hf Hweb Hne) as Hrun.
  cbn zeta in Hrun. rewrite Hrun. clear Hrun.
  unfold candidatesOf in Hout. rewrite Hweb in Hout.
  unfold afterUpserts. rewrite Hout. cbn [outcome events prepend]. split; [done|].
  rewrite !Forall_app. repeat split;
    try (unfold fetchEvents; repeat (apply List.Forall_cons; [done|]);
         apply List.Forall_nil).
  eapply Forall_impl; [apply upsertManyArticles_events|].
  intros e. by destruct e.
Qed.

(** C7, as amended.  For a job whose feed exists.  When the fetch yields at
    least one article that normalises and none of the upserts is rejected
    with a store error other than a duplicate key, the job counts the
    feed's articles after the upserts and writes the count to the feed:
    when the job ends, [postCount] is the number of stored articles of the
    feed (the store answers the count and takes the write, as it does
    throughout this model).  The same holds of every job that resolves
    after a fetch of at least one article.  A job whose fetch fails, or
    yields no content, or yields zero articles, ends before the count: it
    neither counts nor writes [postCount], which is what it was, and it
    leaves the articles as they were. *)
Theorem postCount_written_after_upserts normalize computeContentHash job w f :
  feeds w !! Job.rss job = Some f ->
  let run := handleRSS normalize computeContentHash job w in
  let rssID := Job.rss job in
  let counted :=
    EvArticleCount rssID ∈ events run /\
    EvRssUpdate rssID (PatchPostCount (articleCount rssID (world run))) ∈ events run /\
    exists f', feeds (world run) !! rssID = Some f' /\
               Feed.postCount f' = articleCount rssID (world run) in
  (candidatesOf normalize computeContentHash job w <> [] ->
   (forall err, Some err ∈ upsertFaults w -> code err = Some duplicateKeyError) ->
   counted) /\
  (forall a rssArticles,
      web w (Job.url job) = Resolved (Some (a :: rssArticles)) ->
      outcome run = Resolved tt -> counted) /\
  ((exists err, web w (Job.url job) = Rejected err) \/
   web w (Job.url job) = Resolved None \/
   web w (Job.url job) = Resolved (Some []) ->
   (EvArticleCount rssID ∉ events run) /\
   (forall n, EvRssUpdate rssID (PatchPostCount n) ∉ events run) /\
   articles (world run) = articles w /\
   exists f', feeds (world run) !! rssID = Some f' /\
              Feed.postCount f' = Feed.postCount f).
Proof.
  intros Hf run rssID counted.
  assert (forall rssArticles all,
             web w (Job.url job) = Resolved (Some rssArticles) -> rssArticles <> [] ->
             outcome (upsertManyArticles rssID
                        (candidatesOf normalize computeContentHash job w)
                        (afterFetch rssID w)) = Resolved all ->
             counted) as Hcounted.
  { intros rssArticles all Hweb Hne Hout.
    pose proof (handleRSS_upserts normalize computeContentHash job w f rssArticles
                  Hf Hweb Hne) as Hrun.
    cbn zeta in Hrun. fold run rssID in Hrun.
    unfold candidatesOf in Hout. rewrite Hweb in Hout.
    set (b := upsertManyArticles rssID _ (afterFetch rssID w)) in *.
    destruct (afterUpserts_world rssID b) as [Ha Hfeeds].
    rewrite Hout in Hfeeds. subst counted.
    assert (articleCount rssID (world run) = articleCount rssID (world b)) as ->.
    { unfold articleCount. by rewrite Hrun, <- Ha. }
    split; [|split].
    - rewrite Hrun. unfold afterUpserts. rewrite Hout. cbn [events prepend].
      apply elem_of_app. right. apply elem_of_app. right. apply list_elem_of_here.
    - rewrite Hrun. unfold afterUpserts. rewrite Hout. cbn [events prepend].
      apply elem_of_app. right. apply elem_of_app. right.
      apply list_elem_of_further, list_elem_of_here.
    - rewrite Hrun. cbn [world prepend]. rewrite Hfeeds.
      destruct (upsertManyArticles_frame rssID
                  (omap (normalizeArticle normalize computeContentHash) rssArticles)
                  (afterFetch rssID w)) as (Hfr & _).
      fold b in Hfr. rewrite Hfr. unfold afterFetch. cbn -[lookup alter].
      rewrite !lookup_alter_eq. fold rssID in Hf. rewrite Hf. cbn. eauto. }
  split; [|split].
  - intros Hcand Hok.
    assert (exists rssArticles,
               web w (Job.url job) = Resolved (Some rssArticles) /\ rssArticles <> [])
      as (rssArticles & Hweb & Hne).
    { unfold candidatesOf in Hcand.
      destruct (web w (Job.url job)) as [[arts|]|]; try done.
      exists arts. split; [done|]. by intros ->. }
    destruct (upsertManyArticles_resolves rssID
                (candidatesOf normalize computeContentHash job w) (afterFetch rssID w))
      as [all Hout]; [by destruct (candidatesOf _ _ _ _) | done |].
    by apply (Hcounted rssArticles all).
  - intros a rssArticles Hweb Hres.
    destruct (outcome (upsertManyArticles rssID
                         (candidatesOf normalize computeContentHash job w)
                         (afterFetch rssID w))) as [all|err] eqn:Hout.
    + by apply (Hcounted (a :: rssArticles) all).
    + exfalso.
      destruct (rejected_batch_aborts_job normalize computeContentHash job w f
                  (a :: rssArticles) err Hf Hweb ltac:(done) Hout) as [Hrej _].
      fold run in Hrej. congruence.
  - intros Hweb. subst run. fold rssID in Hf.
    destruct Hweb as [[err Hweb] | [Hweb | Hweb]].
    + rewrite (handleRSS_fetch_rejected normalize computeContentHash job w f err
                 Hf Hweb).
      split; [intros H; in_explicit H|]. split; [intros n H; in_explicit H|].
      split; [done|]. cbn -[lookup alter]. fold rssID.
      rewrite !lookup_alter_eq, Hf. cbn. eauto.
    + rewrite (handleRSS_no_content normalize computeContentHash job w f Hf Hweb).
      split; [intros H; cbn in H; in_explicit H|].
      split; [intros n H; cbn in H; in_explicit H|].
      split; [done|]. unfold afterFetch. cbn -[lookup alter]. fold rssID.
      rewrite !lookup_alter_eq, Hf. cbn. eauto.
    + rewrite (handleRSS_no_articles normalize computeContentHash job w f Hf Hweb).
      split; [intros H; cbn in H; in_explicit H|].
      split; [intros n H; cbn in H; in_explicit H|].
      split; [done|]. unfold afterFetch. cbn -[lookup alter]. fold rssID.
      rewrite !lookup_alter_eq, Hf. cbn. eauto.
Qed.

Lemma postCount_written_after_upserts_witness :
  let w := sampleWorld [] [] (Resolved (Some [samplePost "a.com/1" "" "T"])) in
  let run := handleRSS sampleNormalize sampleHash (Job.mk "F" "a.com/feed") w in
  (feeds w !! "F" = Some (Feed.mk "2018-04-30T00:00:00.000Z" true 3 0) /\
   candidatesOf sampleNormalize sampleHash (Job.mk "F" "a.com/feed") w <> [] /\
   forall err, Some err ∈ upsertFaults w -> code err = Some duplicateKeyError) /\
  EvRssUpdate "F" (PatchPostCount 1) ∈ events run.
Proof.
  cbn zeta.
  split; [split; [reflexivity|split; [discriminate |
                                      intros err H; by apply elem_of_nil in H]]|].
  refine (proj1 (proj2 (proj1
            (postCount_written_after_upserts sampleNormalize sampleHash
               (Job.mk "F" "a.com/feed")
               (sampleWorld [] [] (Resolved (Some [samplePost "a.com/1" "" "T"])))
               (Feed.mk "2018-04-30T00:00:00.000Z" true 3 0) _) _ _))).
  - reflexivity.
  - discriminate.
  - intros err H. by apply elem_of_nil in H.
Defined.

(** C7, as stated, fails: with one article of feed F stored and [postCount]
    at 0, a job whose fetch yields zero articles, and a job whose fetch
    fails, both end without counting the articles or writing [postCount],
    which stays at 0. *)
Lemma postCount_every_run_counterexample :
  let stored := [sampleDoc "5a00000000000000000000aa" "F" "a.com/1" "h1" "T"] in
  let job := Job.mk "F" "a.com/feed" in
  let empty := handleRSS sampleNormalize sampleHash job
                 (sampleWorld stored [] (Resolved (Some []))) in
  let failed := handleRSS sampleNormalize sampleHash job
                  (sampleWorld stored [] (Rejected (mkError None "ETIMEDOUT"))) in
  (outcome empty = Resolved tt /\
   (forall n, EvRssUpdate "F" (PatchPostCount n) ∉ events empty) /\
   (EvArticleCount "F" ∉ events empty) /\
   Feed.postCount <$> feeds (world empty) !! "F" = Some 0 /\
   articleCount "F" (world empty) = 1) /\
  ((forall n, EvRssUpdate "F" (PatchPostCount n) ∉ events failed) /\
   (EvArticleCount "F" ∉ events failed) /\
   Feed.postCount <$> feeds (world failed) !! "F" = Some 0 /\
   articleCount "F" (world failed) = 1).
Proof.
  cbn zeta. split.
  - split; [reflexivity|]. split; [|split; [by_compute|split; by vm_compute]].
    intros n H. vm_compute in H. in_explicit H.
  - split; [|split; [by_compute|split; by vm_compute]].
    intros n H. vm_compute in H. in_explicit H.
Qed.

(** ** Resubmission *)

Lemma omap_upsertOf_quiet (l : list Event) :
  Forall (fun e => upsertOf e = None) l -> omap upsertOf l = [].
Proof. induction 1 as [|e l He _ IH]; [done|]. cbn. by rewrite He, IH. Qed.

Lemma afterUpserts_writes rssID (b : Run (list UpsertResult)) :
  omap upsertOf (events (afterUpserts rssID b)) = omap upsertOf (events b).
Proof.
  unfold afterUpserts.
  destruct (outcome b) as [all|err]; cbn [events]; [|done].
  match goal with |- context [syncToStream ?i ?l ?x] => set (s := syncToStream i l x) end.
  assert (omap upsertOf (events s) = []) as Hs.
  { apply omap_upsertOf_quiet.
    eapply Forall_impl; [apply syncToStream_events|].
    by intros e [(chunk & _ & ->) | [-> _]]. }
  assert (omap upsertOf
            (map (fun d => EvOgQueueAdd "article" (Update.url (body d)))
                 (omap truthy all)) = []) as Hog.
  { apply omap_upsertOf_quiet, Forall_forall.
    by intros e (d & -> & _)%list_elem_of_fmap. }
  rewrite !omap_app, Hs, Hog. cbn.
  destruct (outcome s); cbn; by rewrite !app_nil_r.
Qed.

(** The writes of a job to the article collection: none, or the upserts of
    the kept candidates. *)
Lemma handleRSS_writes normalize computeContentHash job w :
  let run := handleRSS normalize computeContentHash job w in
  let rssID := Job.rss job in
  let kept := keptOf (candidatesOf normalize computeContentHash job w) rssID w in
  (articles (world run) = articles w /\ omap upsertOf (events run) = []) \/
  (articles (world run) = articles (world (batch rssID kept (afterFetch rssID w))) /\
   omap upsertOf (events run) = map (upsertUpdate rssID) kept).
Proof.
  intros run rssID kept.
  destruct (handleRSS_cases normalize computeContentHash job w)
    as [[Hf Hrun] | [(f0 & err & _ & Hweb & Hrun) | [(f0 & _ & Hweb & Hrun) |
        (f0 & arts & _ & Hweb & Hne & Hrun)]]];
    cbn zeta in Hrun; subst run; rewrite Hrun; clear Hrun.
  1-3: by left.
  right. fold rssID. cbn [world events prepend].
  set (cands := candidatesOf normalize computeContentHash job w) in *.
  destruct (afterUpserts_world rssID
              (upsertManyArticles rssID cands (afterFetch rssID w))) as [-> _].
  destruct (upsertManyArticles_frame rssID cands (afterFetch rssID w))
    as (_ & _ & ->).
  split; [done|].
  rewrite omap_app, afterUpserts_writes. cbn.
  destruct (upsertManyArticles_events rssID cands (afterFetch rssID w))
    as (_ & Hsome & Hnone).
  destruct (findFault cands (afterFetch rssID w)) as [err|] eqn:Hff.
  - rewrite Hnone by done. apply findFault_some in Hff.
    subst kept. unfold keptOf. fold cands. by rewrite Hff.
  - by apply Hsome.
Qed.

(** ** The fan-out of a job *)

Lemma filter_none {A} (f : A -> bool) (l : list A) :
  Forall (fun x => f x = false) l -> List.filter f l = [].
Proof. induction 1 as [|x l Hx _ IH]; [done|]. cbn. by rewrite Hx. Qed.

Lemma filter_all {A} (f : A -> bool) (l : list A) :
  Forall (fun x => f x = true) l -> List.filter f l = l.
Proof. induction 1 as [|x l Hx _ IH]; [done|]. cbn. by rewrite Hx, IH. Qed.

Lemma step_identities rssID post w :
  map identityOf (articles (world (upsertArticle rssID post w))) =
  map identityOf (articles w)
  ++ map identityOf (inserted (outcome (upsertArticle rssID post w))).
Proof.
  rewrite upsertArticle_run. cbn zeta.
  destruct (pending (upsertFaults w)) as [err|].
  { destruct (bool_decide _); cbn; by rewrite app_nil_r. }
  destruct (list_find _ (articles w)) as [[i d]|] eqn:Hfind.
  - apply list_find_Some in Hfind as (Hi & Hcond & _). cbn.
    rewrite app_nil_r, list_fmap_insert. apply list_insert_id.
    rewrite list_lookup_fmap, Hi. cbn. unfold identityOf. cbn.
    by rewrite (upsertConditions_key _ _ _ Hcond).
  - destruct (Article.uniqueIndexViolated _ _); cbn.
    + by rewrite app_nil_r.
    + by rewrite fmap_app.
Qed.

Lemma batch_identities rssID posts w :
  exists added,
    map identityOf (articles (world (batch rssID posts w))) =
      map identityOf (articles w) ++ added /\
    Forall (fun i => i.2.1 = rssID) added.
Proof.
  revert w. induction posts as [|post posts IH]; intros w.
  - exists []. cbn. by rewrite app_nil_r.
  - rewrite batch_cons. cbn [world].
    destruct (IH (world (upsertArticle rssID post w))) as (added & -> & Hadded).
    rewrite step_identities, <- app_assoc. eexists. split; [reflexivity|].
    apply Forall_app. split; [|done].
    pose proof (step_new rssID post w) as Hnew. cbn zeta in Hnew.
    apply Forall_forall. intros i (d & -> & Hd)%list_elem_of_fmap.
    destruct (Hnew d Hd) as [Hb _]. cbn. by rewrite Hb.
Qed.

(** The documents that a resolved batch hands back are the documents it
    has added to the store, in order. *)
Lemma batch_news_identities rssID posts w all :
  outcome (batch rssID posts w) = Resolved all ->
  map identityOf (articles (world (batch rssID posts w))) =
  map identityOf (articles w) ++ map identityOf (omap truthy all).
Proof.
  revert w all. induction posts as [|p posts IH]; intros w all.
  { intros [= <-]. cbn. by rewrite app_nil_r. }
  rewrite batch_cons. cbn [outcome world]. intros Hout.
  pose proof (step_identities rssID p w) as Hid.
  destruct (outcome (upsertArticle rssID p w)) as [a|]; [|done].
  destruct (outcome (batch rssID posts _)) as [l|] eqn:Hl; [|done].
  injection Hout as <-. rewrite (IH _ _ Hl), Hid, <- app_assoc. f_equal.
  by destruct a.
Qed.

(** An inserted document gets the next [_id] that the store hands out. *)
Lemma step_ids rssID post w d :
  d ∈ inserted (outcome (upsertArticle rssID post w)) ->
  _id d = objectIds w (nextId w).
Proof.
  rewrite upsertArticle_run. cbn zeta.
  destruct (pending (upsertFaults w)) as [err|].
  { destruct (bool_decide _); cbn; intros H; by apply elem_of_nil in H. }
  destruct (list_find _ (articles w)) as [[i x]|]; cbn.
  { intros H; by apply elem_of_nil in H. }
  destruct (Article.uniqueIndexViolated _ _); cbn.
  { intros H; by apply elem_of_nil in H. }
  by intros ->%list_elem_of_singleton.
Qed.

Lemma batch_ids rssID posts w all d :
  outcome (batch rssID posts w) = Resolved all -> d ∈ omap truthy all ->
  exists n, _id d = objectIds w n.
Proof.
  revert w all. induction posts as [|p posts IH]; intros w all.
  { intros [= <-] H. by apply elem_of_nil in H. }
  rewrite batch_cons. cbn [outcome]. intros Hout Hd.
  pose proof (step_ids rssID p w) as Hid.
  destruct (step_frame rssID p w) as (_ & _ & _ & _ & Hobj & _).
  destruct (outcome (upsertArticle rssID p w)) as [a|]; [|done].
  destruct (outcome (batch rssID posts _)) as [l|] eqn:Hl; [|done].
  injection Hout as <-.
  assert (d ∈ inserted (Resolved a) \/ d ∈ omap truthy l) as [Hin|Hin].
  { destruct a; cbn in Hd |- *; [|by right..].
    apply elem_of_cons in Hd as [->|Hd]; [left; apply list_elem_of_here | by right]. }
  - eexists. by apply Hid.
  - destruct (IH _ _ Hl Hin) as [n Hn]. exists n. by rewrite Hn, Hobj.
Qed.

Lemma omap_activitiesOf_quiet (l : list Event) :
  Forall (fun e => activitiesOf e = None) l -> omap activitiesOf l = [].
Proof. induction 1 as [|e l He _ IH]; [done|]. cbn. by rewrite He, IH. Qed.

Lemma omap_activitiesOf_publish slug id (chunks : list (list Doc)) :
  omap activitiesOf (map (publishEvent slug id) chunks) =
  map (map streamActivity) chunks.
Proof. induction chunks as [|c chunks IH]; [done|]. cbn. by rewrite IH. Qed.

Lemma omap_activitiesOf_stream (l : list Event) :
  omap activitiesOf (List.filter isStreamCall l) = omap activitiesOf l.
Proof.
  induction l as [|e l IH]; [done|].
  destruct e; cbn; by rewrite ?IH.
Qed.

Lemma newsOf_upserts normalize computeContentHash job w f rssArticles :
  feeds w !! Job.rss job = Some f ->
  web w (Job.url job) = Resolved (Some rssArticles) -> rssArticles <> [] ->
  newsOf normalize computeContentHash job w =
  match outcome (upsertManyArticles (Job.rss job)
                   (candidatesOf normalize computeContentHash job w)
                   (afterFetch (Job.rss job) w)) with
  | Resolved all => omap truthy all
  | Rejected _ => []
  end.
Proof. intros Hf Hweb Hne. unfold newsOf. rewrite Hf, Hweb. by destruct rssArticles. Qed.

(** The documents that the upserts of a job hand back are documents that
    the job has inserted: each carries the fields of a kept candidate, under
    a key new to the store and the next [_id] of the store. *)
Lemma newsOf_inserted normalize computeContentHash job w :
  Forall
    (fun d =>
       (exists post,
           post ∈ keptOf (candidatesOf normalize computeContentHash job w)
                    (Job.rss job) w /\
           body d = upsertUpdate (Job.rss job) post) /\
       (docKey d ∉ map docKey (articles w)) /\
       exists n, _id d = objectIds w n)
    (newsOf normalize computeContentHash job w).
Proof.
  unfold newsOf.
  destruct (feeds w !! Job.rss job) as [f|]; [|apply List.Forall_nil].
  destruct (web w (Job.url job)) as [[[|a arts]|]|] eqn:Hweb;
    try apply List.Forall_nil.
  set (cands := candidatesOf normalize computeContentHash job w).
  set (w0 := afterFetch (Job.rss job) w).
  destruct (outcome (upsertManyArticles (Job.rss job) cands w0)) as [all|err] eqn:Hout;
    [|apply List.Forall_nil].
  apply Forall_forall. intros d Hd.
  destruct (upsertManyArticles_new (Job.rss job) cands w0 all d Hout Hd)
    as (post & Hpost & Hb & Hk).
  split; [by exists post|]. split; [exact Hk|].
  rewrite upsertManyArticles_run in Hout.
  destruct (findFault cands w0); [done|]. cbn [outcome prepend] in Hout.
  apply (batch_ids _ _ _ _ d Hout Hd).
Qed.

(** What a job sends out, and what it has added to the store by then: the
    enrichment jobs are those of the documents handed back by its upserts;
    the calls to the stream publish these documents chunk by chunk, up to
    the chunk that the stream rejects, and end in the notification of the
    collections when every chunk was accepted; and the documents handed
    back sit in the store behind the articles that were there before. *)
Lemma handleRSS_fanout normalize computeContentHash job w :
  let run := handleRSS normalize computeContentHash job w in
  let rssID := Job.rss job in
  let news := newsOf normalize computeContentHash job w in
  let chunks := chunksOf chunkSize news in
  let calls := List.filter isStreamCall (events run) in
  let complete :=
    map (publishEvent "rss" rssID) chunks
    ++ match news with
       | [] => []
       | _ => [EvSendRssFeedToCollections rssID]
       end in
  omap ogOf (events run) = map (fun d => Update.url (body d)) news /\
  (calls = complete \/
   exists err k, outcome run = Rejected err /\ k < length chunks /\
                 calls = map (publishEvent "rss" rssID) (take (S k) chunks)) /\
  (outcome run = Resolved tt -> calls = complete) /\
  (quiet (streamFaults w) -> calls = complete) /\
  (exists rest,
      map identityOf (articles (world run)) =
        map identityOf (articles w) ++ map identityOf news ++ rest /\
      (rest = [] \/
       ((exists err, outcome run = Rejected err) /\
        EvArticleCount rssID ∉ events run))).
Proof.
  cbn zeta.
  destruct (handleRSS_cases normalize computeContentHash job w)
    as [[Hf Hrun] | [(f0 & err & Hf & Hweb & Hrun) | [(f0 & Hf & Hweb & Hrun) |
        (f0 & arts & Hf & Hweb & Hne & Hrun)]]];
    cbn zeta in Hrun; rewrite Hrun; clear Hrun.
  1-3: assert (newsOf normalize computeContentHash job w = []) as ->
         by (unfold newsOf; rewrite Hf; try done; 
             first [by rewrite Hweb | by destruct Hweb as [-> | ->]]);
       change chunkSize with (S 99); simp chunksOf; cbn;
       (split; [done|]); (split; [by left|]); (split; [done|]); (split; [done|]);
       exists []; rewrite app_nil_r; split; [done | by left].
  rewrite (newsOf_upserts normalize computeContentHash job w f0 arts Hf Hweb Hne).
  set (cands := candidatesOf normalize computeContentHash job w).
  set (w0 := afterFetch (Job.rss job) w).
  set (b := upsertManyArticles (Job.rss job) cands w0).
  cbn [outcome world events prepend].
  destruct (afterUpserts_world (Job.rss job) b) as [-> _].
  pose proof (proj1 (upsertManyArticles_events (Job.rss job) cands w0)) as Hb.
  fold b in Hb.
  assert (omap ogOf (events b) = []) as Hbog.
  { apply omap_ogOf_quiet. eapply Forall_impl; [exact Hb|]. intros e. by destruct e. }
  assert (List.filter isStreamCall (events b) = []) as Hbst.
  { apply filter_none. eapply Forall_impl; [exact Hb|]. intros e. by destruct e. }
  destruct (upsertManyArticles_frame (Job.rss job) cands w0) as (_ & Hsf & Hart).
  fold b in Hsf, Hart.
  unfold afterUpserts.
  destruct (outcome b) as [all|err] eqn:Hout; cbn [outcome events].
  - set (news := omap truthy all).
    match goal with |- context [syncToStream ?i ?l ?x] =>
      destruct (syncToStream_run i l x) as (_ & Hev & Hq); cbn zeta in Hev, Hq;
      pose proof (syncToStream_events i l x) as Hs;
      pose proof (syncToStream_no_enrichment i l x) as Hsog;
      set (s := syncToStream i l x) in * end.
    assert (List.filter isStreamCall
              ((fetchEvents job w
                ++ [EvStatsdIncrement "winds.handle_rss.articles.parsed" (length arts);
                    EvStatsdTiming "winds.handle_rss.articles.parsed"
                      (Some (length arts))])
               ++ events b
               ++ [EvArticleCount (Job.rss job);
                   EvRssUpdate (Job.rss job)
                     (PatchPostCount (articleCount (Job.rss job) (world b)));
                   EvStatsdIncrement "winds.handle_rss.articles.upserted"
                     (length news)]
               ++ map (fun d => EvOgQueueAdd "article" (Update.url (body d))) news
               ++ events s
               ++ match outcome s with
                  | Resolved _ => [EvStatsdTiming "winds.handle_rss.send_to_stream" None]
                  | Rejected _ => []
                  end) = events s) as Hcalls.
    { rewrite !List.filter_app, Hbst.
      rewrite (filter_none isStreamCall (map _ news)).
      2:{ apply Forall_forall. by intros e (d & -> & _)%list_elem_of_fmap. }
      rewrite (filter_all isStreamCall (events s)).
      2:{ eapply Forall_impl; [exact Hs|]. by intros e [(chunk & _ & ->) | [-> _]]. }
      cbn. destruct (outcome s); cbn; apply app_nil_r. }
    rewrite Hcalls. clear Hcalls.
    split; [|split; [|split; [|split]]].
    + rewrite !omap_app, Hbog, Hsog, omap_ogOf_enrichment.
      cbn. destruct (outcome s); cbn; apply app_nil_r.
    + destruct Hev as [[_ ->] | [(e & k & He & Hk & ->) | (e & _ & Hnn & ->)]].
      * by left.
      * right. by exists e, k.
      * left. by destruct news.
    + intros Hres.
      destruct Hev as [[_ ->] | [(e & k & He & _) | (e & He & _)]];
        [done | congruence | congruence].
    + intros Hquiet.
      assert (outcome s = Resolved tt) as Hres.
      { apply Hq. cbn [streamFaults set_feeds]. by rewrite Hsf. }
      destruct Hev as [[_ ->] | [(e & k & He & _) | (e & He & _)]];
        [done | congruence | congruence].
    + exists []. rewrite app_nil_r. split; [|by left].
      rewrite Hart. subst b. rewrite upsertManyArticles_run in Hout.
      destruct (findFault cands w0); [done|]. cbn [outcome prepend] in Hout.
      exact (batch_news_identities _ _ _ _ Hout).
  - change chunkSize with (S 99). simp chunksOf. cbn [map app].
    assert (List.filter isStreamCall
              ((fetchEvents job w
                ++ [EvStatsdIncrement "winds.handle_rss.articles.parsed" (length arts);
                    EvStatsdTiming "winds.handle_rss.articles.parsed"
                      (Some (length arts))])
               ++ events b) = []) as ->.
    { rewrite List.filter_app, Hbst. reflexivity. }
    split; [by rewrite omap_app, Hbog|]. split; [by left|].
    split; [done|]. split; [done|].
    rewrite Hart.
    destruct (batch_identities (Job.rss job)
                (articlesToUpsert (Job.rss job) cands w0) w0) as (added & -> & _).
    exists added. split; [done|]. right. split; [by exists err|].
    intros Hin. apply elem_of_app in Hin as [Hin|Hin]; [cbn in Hin; in_explicit Hin|].
    eapply Forall_forall in Hb; [|exact Hin]. done.
Qed.

(** The activities of a job, call by call. *)
Lemma handleRSS_activities normalize computeContentHash job w slug id acts :
  EvAddActivities slug id acts ∈ events (handleRSS normalize computeContentHash job w) ->
  slug = "rss" /\ id = Job.rss job /\
  exists chunk,
    chunk ∈ chunksOf chunkSize (newsOf normalize computeContentHash job w) /\
    acts = map streamActivity chunk.
Proof.
  intros Hin.
  assert (EvAddActivities slug id acts
            ∈ List.filter isStreamCall
                (events (handleRSS normalize computeContentHash job w))) as Hcall.
  { apply list_elem_of_In, filter_In. split; [by apply list_elem_of_In | done]. }
  destruct (handleRSS_fanout normalize computeContentHash job w)
    as (_ & Hcalls & _). cbn zeta in Hcalls.
  assert (EvAddActivities slug id acts
            ∈ map (publishEvent "rss" (Job.rss job))
                (chunksOf chunkSize (newsOf normalize computeContentHash job w)))
    as Hpub.
  { destruct Hcalls as [E | (err & k & _ & _ & E)]; rewrite E in Hcall.
    - apply elem_of_app in Hcall as [Hcall|Hcall]; [done|].
      destruct (newsOf _ _ _ _); [by apply elem_of_nil in Hcall|].
      by apply list_elem_of_singleton in Hcall.
    - apply list_elem_of_fmap in Hcall as (c & -> & Hc).
      apply list_elem_of_fmap. exists c. split; [done|]. eapply subseteq_take, Hc. }
  apply list_elem_of_fmap in Hpub as (chunk & [= -> -> ->] & Hc).
  split; [done|]. split; [done|]. by exists chunk.
Qed.

(** With [_id]s that the store does not hand out twice, no activity of a
    job is about an article with the [_id] of one that was stored before. *)
Lemma handleRSS_activity_ids normalize computeContentHash job w (P : string -> Prop) :
  (forall n, ~ P (objectIds w n)) ->
  forall slug id acts act,
    EvAddActivities slug id acts ∈ events (handleRSS normalize computeContentHash job w) ->
    act ∈ acts -> ~ P (object act).
Proof.
  intros Hfresh slug id acts act Hin Hact.
  destruct (handleRSS_activities _ _ _ _ _ _ _ Hin) as (_ & _ & chunk & Hc & ->).
  apply list_elem_of_fmap in Hact as (x & -> & Hx). cbn.
  pose proof (newsOf_inserted normalize computeContentHash job w) as Hnews.
  rewrite Forall_forall in Hnews.
  destruct (Hnews x) as (_ & _ & n & ->); [by eapply (chunksOf_elem 99)|].
  apply Hfresh.
Qed.

(** C6. When the fetched feed contains an article whose normalised url and
    contentHash are those of an article already stored for the feed, the job
    leaves every stored document with that url as it is (none added, none
    updated), attempts no write for that url, and queues no enrichment job
    for it.  The activities it publishes are, call by call, those of the
    documents that its upserts handed back, none of which has that url or is
    the stored article: they are additions to the store, under keys that
    were not there; and where the store does not hand out the [_id] of the
    stored article a second time, no activity has that [_id] as its
    object. *)
Theorem resubmission_is_idempotent normalize computeContentHash job w
    rssArticles a a' d :
  web w (Job.url job) = Resolved (Some rssArticles) ->
  a ∈ rssArticles ->
  normalizeArticle normalize computeContentHash a = Some a' ->
  d ∈ articles w ->
  Update.rss (body d) = Job.rss job ->
  Update.url (body d) = Post.url a' ->
  Update.contentHash (body d) = Post.contentHash a' ->
  let run := handleRSS normalize computeContentHash job w in
  let news := newsOf normalize computeContentHash job w in
  let sameUrl := fun x : Doc => bool_decide (Update.url (body x) = Post.url a') in
  List.filter sameUrl (articles (world run)) = List.filter sameUrl (articles w) /\
  (forall u, u ∈ omap upsertOf (events run) -> Update.url u <> Post.url a') /\
  (Post.url a' ∉ omap ogOf (events run)) /\
  (forall slug id acts,
      EvAddActivities slug id acts ∈ events run ->
      exists chunk, chunk ∈ chunksOf chunkSize news /\
                    acts = map streamActivity chunk) /\
  Forall (fun x => Update.url (body x) <> Post.url a' /\
                   docKey x <> docKey d /\
                   (docKey x ∉ map docKey (articles w))) news /\
  (exists rest,
      map identityOf (articles (world run)) =
      map identityOf (articles w) ++ map identityOf news ++ rest) /\
  ((forall n, objectIds w n <> _id d) ->
   forall slug id acts act,
     EvAddActivities slug id acts ∈ events run -> act ∈ acts ->
     object act <> _id d).
Proof.
  intros Hweb Ha Hnorm Hd Hrss Hurl Hhash run news sameUrl. subst run news.
  set (kept := keptOf (candidatesOf normalize computeContentHash job w) (Job.rss job) w).
  assert (forall post, post ∈ kept -> Post.url post <> Post.url a') as Hkept.
  { intros post Hp. apply articlesToUpsert_spec in Hp as (_ & Hu & _).
    intros E. apply (Hu d); [|congruence].
    split; [done|]. split; [done|]. exists a'. split; [|done].
    unfold candidatesOf. rewrite Hweb. apply list_elem_of_omap. by exists a. }
  pose proof (newsOf_inserted normalize computeContentHash job w) as Hnews.
  fold kept in Hnews. rewrite Forall_forall in Hnews.
  assert (forall x, x ∈ newsOf normalize computeContentHash job w ->
                    Update.url (body x) <> Post.url a') as Hnew.
  { intros x Hx. destruct (Hnews x Hx) as ((post & Hp & ->) & _). by apply Hkept. }
  destruct (handleRSS_fanout normalize computeContentHash job w)
    as (Hog & _ & _ & _ & rest & Hids & _). cbn zeta in Hog, Hids.
  pose proof (handleRSS_writes normalize computeContentHash job w) as Hw.
  cbn zeta in Hw. fold kept in Hw.
  split; [|split; [|split; [|split; [|split; [|split]]]]].
  - destruct Hw as [[-> _] | [-> _]]; [done|].
    change (articles w) with (articles (afterFetch (Job.rss job) w)).
    apply batch_untouched. intros post x Hp Hx E.
    apply bool_decide_eq_true in Hx. apply (Hkept post Hp).
    unfold docKey in E. injection E as _ E. congruence.
  - intros u Hu.
    destruct Hw as [[_ E] | [_ E]]; rewrite E in Hu; [by apply elem_of_nil in Hu|].
    apply list_elem_of_fmap in Hu as (post & -> & Hp). by apply Hkept.
  - rewrite Hog. intros (x & E & Hx)%list_elem_of_fmap. by apply (Hnew x).
  - intros slug id acts Hin.
    by destruct (handleRSS_activities _ _ _ _ _ _ _ Hin) as (_ & _ & Hc).
  - apply Forall_forall. intros x Hx.
    destruct (Hnews x Hx) as (_ & Hk & _).
    split; [by apply Hnew|]. split; [|done].
    intros E. apply Hk. rewrite E. apply list_elem_of_fmap. by exists d.
  - by exists rest.
  - intros Hfresh.
    apply (handleRSS_activity_ids normalize computeContentHash job w
             (fun i => i = _id d) Hfresh).
Qed.

(** C10. A job that inserts no article makes no [addActivities] call and no
    collections notification.  That no article was inserted shows in the
    store, which holds as many articles after the job as before, and in the
    results of the upserts, none of which is a document: every kept
    candidate ended in an update or in an ignored duplicate, or none was
    kept. *)
Theorem no_insert_no_stream_call normalize computeContentHash job w :
  let run := handleRSS normalize computeContentHash job w in
  let rssID := Job.rss job in
  let upserts :=
    upsertManyArticles rssID (candidatesOf normalize computeContentHash job w)
      (afterFetch rssID w) in
  length (articles (world run)) = length (articles w) \/
  (exists all, outcome upserts = Resolved all /\ omap truthy all = []) ->
  (forall slug id acts, EvAddActivities slug id acts ∉ events run) /\
  (forall id, EvSendRssFeedToCollections id ∉ events run).
Proof.
  intros run rssID upserts Hnone. subst run.
  assert (length (articles (world (handleRSS normalize computeContentHash job w))) =
          length (articles w)) as Hlen.
  { destruct Hnone as [Hlen | (all & Hout & Hall)]; [done|].
    destruct (handleRSS_writes normalize computeContentHash job w)
      as [[-> _] | [-> _]]; [done|].
    unfold keptOf. fold rssID.
    destruct (upsertManyArticles_frame rssID
                (candidatesOf normalize computeContentHash job w)
                (afterFetch rssID w)) as (_ & _ & <-).
    pose proof (upsertManyArticles_length _ _ _ all Hout) as Hl.
    fold upserts in Hl |- *. rewrite Hl, Hall. unfold afterFetch. cbn. lia. }
  destruct (handleRSS_news normalize computeContentHash job w)
    as (news & _ & _ & Hadd & Hsend & Hnil).
  cbn zeta in Hadd, Hsend, Hnil. specialize (Hnil Hlen). subst news. split.
  - intros slug id acts H. destruct (Hadd _ _ _ H) as (_ & _ & chunk & Hc & _).
    change chunkSize with (S 99) in Hc. simp chunksOf in Hc.
    by apply elem_of_nil in Hc.
  - intros id H. by destruct (Hsend _ H) as [_ ?].
Qed.

(** ** Store errors *)





(** ** Insert or update *)

Lemma upsertConditions_spec rssID post d :
  upsertConditions rssID post d = true <-> differsFrom rssID post d.
Proof.
  unfold upsertConditions, postContentDiffers, differsFrom.
  rewrite !andb_true_iff, !orb_true_iff, !negb_true_iff,
    !bool_decide_eq_true, !bool_decide_eq_false.
  tauto.
Qed.

(** C2, as amended.  With no fault of the store in the way, [upsertArticle]
    inserts when no stored article has the feed and url of the post, and
    resolves to the stored document; it updates when a stored article of the
    feed with that url differs in commentUrl, content, description or title,
    overwrites the first such article and resolves to [undefined], which is
    not truthy; when the feed has the url stored with the same four fields,
    the insert runs into the unique index and the result is [null].  A job
    announces the documents that its upserts handed back, and these only:
    its enrichment jobs are theirs, one each and in order, and every call
    to the stream publishes a chunk of them.  Each of these documents was
    inserted by the job, under a key that the store did not hold when the
    job began, and sits in the store behind the articles that were there;
    so no enrichment job goes out for a key that was stored, and, where the
    store hands out no [_id] that a stored article has, no activity has the
    [_id] of an article that was stored, as an article that was only
    updated is. *)
Theorem upsert_result_and_announcement normalize computeContentHash rssID post w :
  pending (upsertFaults w) = None ->
  let r := upsertArticle rssID post w in
  ((rssID, Post.url post) ∉ map docKey (articles w) ->
     exists d, outcome r = Resolved (JsDoc d) /\ truthy (JsDoc d) = Some d /\
               body d = upsertUpdate rssID post /\
               articles (world r) = articles w ++ [d]) /\
  ((exists d, d ∈ articles w /\ differsFrom rssID post d) ->
     outcome r = Resolved JsUndefined /\ truthy JsUndefined = None /\
     exists i d, articles w !! i = Some d /\ differsFrom rssID post d /\
                 articles (world r) =
                 <[i := mkDoc (_id d) (upsertUpdate rssID post)]> (articles w)) /\
  ((rssID, Post.url post) ∈ map docKey (articles w) ->
   (forall d, d ∈ articles w -> ~ differsFrom rssID post d) ->
     outcome r = Resolved JsNull /\ articles (world r) = articles w) /\
  (forall job w0,
     let run := handleRSS normalize computeContentHash job w0 in
     let news := newsOf normalize computeContentHash job w0 in
     omap ogOf (events run) = map (fun d => Update.url (body d)) news /\
     (forall slug id acts,
         EvAddActivities slug id acts ∈ events run ->
         exists chunk, chunk ∈ chunksOf chunkSize news /\
                       acts = map streamActivity chunk) /\
     Forall (fun d =>
               (exists p, p ∈ keptOf (candidatesOf normalize computeContentHash job w0)
                                (Job.rss job) w0 /\
                          body d = upsertUpdate (Job.rss job) p) /\
               (docKey d ∉ map docKey (articles w0)) /\
               exists n, _id d = objectIds w0 n) news /\
     (exists rest,
         map identityOf (articles (world run)) =
         map identityOf (articles w0) ++ map identityOf news ++ rest) /\
     (forall u, u ∈ omap ogOf (events run) ->
                (Job.rss job, u) ∉ map docKey (articles w0)) /\
     ((forall n, objectIds w0 n ∉ map _id (articles w0)) ->
      forall slug id acts act,
        EvAddActivities slug id acts ∈ events run -> act ∈ acts ->
        object act ∉ map _id (articles w0))).
Proof.
  intros Hpend r. subst r. rewrite upsertArticle_run, Hpend. cbn zeta.
  split; [|split; [|split]].
  - intros Hkey.
    destruct (list_find _ (articles w)) as [[i d]|] eqn:Hfind.
    { exfalso. apply list_find_Some in Hfind as (Hi & Hcond & _).
      apply Hkey. rewrite <- (upsertConditions_key _ _ _ Hcond).
      apply list_elem_of_fmap. exists d. split; [done|].
      by eapply list_elem_of_lookup_2. }
    rewrite (proj2 (uniqueIndexViolated_false (upsertUpdate rssID post) _) Hkey).
    eauto.
  - intros (d & Hd & Hdiff).
    destruct (list_find _ (articles w)) as [[i d']|] eqn:Hfind.
    + apply list_find_Some in Hfind as (Hi & Hcond & _).
      split; [done|]. split; [done|]. exists i, d'.
      split; [done|]. split; [by apply upsertConditions_spec | done].
    + exfalso. apply list_find_None in Hfind. rewrite Forall_forall in Hfind.
      apply (Hfind d Hd). by apply upsertConditions_spec.
  - intros Hkey Hsame.
    destruct (list_find _ (articles w)) as [[i d]|] eqn:Hfind.
    { exfalso. apply list_find_Some in Hfind as (Hi & Hcond & _).
      apply (Hsame d); [by eapply list_elem_of_lookup_2|].
      by apply upsertConditions_spec. }
    destruct (Article.uniqueIndexViolated _ _) eqn:Hidx; [done|].
    by apply uniqueIndexViolated_false in Hidx.
  - intros job w0.
    pose proof (newsOf_inserted normalize computeContentHash job w0) as Hnews.
    destruct (handleRSS_fanout normalize computeContentHash job w0)
      as (Hog & _ & _ & _ & rest & Hids & _). cbn zeta in Hog, Hids.
    split; [exact Hog|]. split; [|split; [exact Hnews|split; [by exists rest|split]]].
    + intros slug id acts Hin.
      by destruct (handleRSS_activities _ _ _ _ _ _ _ Hin) as (_ & _ & Hc).
    + intros u Hu. rewrite Hog in Hu.
      apply list_elem_of_fmap in Hu as (x & -> & Hx).
      rewrite Forall_forall in Hnews.
      destruct (Hnews x Hx) as ((p & _ & Hb) & Hk & _).
      unfold docKey in Hk at 1. rewrite Hb in Hk |- *. exact Hk.
    + intros Hfresh.
      apply (handleRSS_activity_ids normalize computeContentHash job w0
               (fun i => i ∈ map _id (articles w0)) Hfresh).
Qed.

(** C2, as stated, fails where it has the update resolve to [null]: with
    article a.com/1 of feed F stored under title T, the upsert of the same
    url under title T2 updates the stored article and resolves to
    [undefined]. *)
Lemma update_resolves_to_null_counterexample :
  let stored := sampleDoc "5a00000000000000000000aa" "F" "a.com/1" "h1" "T" in
  let post := samplePost "a.com/1" "h2" "T2" in
  let r := upsertArticle "F" post (sampleWorld [stored] [] (Resolved None)) in
  differsFrom "F" post stored /\
  articles (world r) = [sampleDoc "5a00000000000000000000aa" "F" "a.com/1" "h2" "T2"] /\
  outcome r = Resolved JsUndefined /\
  outcome r <> Resolved JsNull.
Proof.
  cbn zeta. split; [|split; [reflexivity|split; [reflexivity|discriminate]]].
  split; [done|]. split; [done|]. do 3 right. discriminate.
Qed.

Lemma upsert_result_and_announcement_witness :
  let w := sampleWorld [] [] (Resolved None) in
  let post := samplePost "a.com/1" "h1" "T" in
  pending (upsertFaults w) = None /\
  exists d, outcome (upsertArticle "F" post w) = Resolved (JsDoc d) /\
            truthy (JsDoc d) = Some d /\
            body d = upsertUpdate "F" post /\
            articles (world (upsertArticle "F" post w)) = articles w ++ [d].
Proof.
  cbn zeta. split; [reflexivity|].
  refine (proj1 (upsert_result_and_announcement sampleNormalize sampleHash "F"
                   (samplePost "a.com/1" "h1" "T")
                   (sampleWorld [] [] (Resolved None)) _) _).
  - reflexivity.
  - apply not_elem_of_nil.
Defined.

(** ** Synchronisation with the stream *)


(** ** The statements at sample inputs *)


Lemma fetch_failure_counter_witness :
  let w := sampleWorld [] [] (Rejected (mkError None "ETIMEDOUT")) in
  let run := handleRSS sampleNormalize sampleHash (Job.mk "F" "a.com/feed") w in
  feeds w !! "F" = Some (Feed.mk "2018-04-30T00:00:00.000Z" true 3 0) /\
  exists f', feeds (world run) !! "F" = Some f' /\
             Feed.consecutiveScrapeFailures f' = 4.
Proof.
  cbn zeta. split; [reflexivity|].
  refine (proj1 (proj2 (proj2 (proj2
            (fetch_failure_counter sampleNormalize sampleHash (Job.mk "F" "a.com/feed")
               (sampleWorld [] [] (Rejected (mkError None "ETIMEDOUT")))
               (Feed.mk "2018-04-30T00:00:00.000Z" true 3 0) _)
            (mkError None "ETIMEDOUT") _)))); reflexivity.
Defined.

Lemma resubmission_is_idempotent_witness :
  let stored := sampleDoc "5a00000000000000000000aa" "F" "a.com/1" "T" "T" in
  let a := samplePost "a.com/1" "" "T" in
  let w := sampleWorld [stored] [] (Resolved (Some [a])) in
  let run := handleRSS sampleNormalize sampleHash (Job.mk "F" "a.com/feed") w in
  (normalizeArticle sampleNormalize sampleHash a = Some (samplePost "a.com/1" "T" "T") /\
   stored ∈ articles w) /\
  "a.com/1" ∉ omap ogOf (events run).
Proof.
  cbn zeta. split; [split; [reflexivity | apply list_elem_of_here]|].
  refine (proj1 (proj2 (proj2
            (resubmission_is_idempotent sampleNormalize sampleHash
               (Job.mk "F" "a.com/feed")
               (sampleWorld [sampleDoc "5a00000000000000000000aa" "F" "a.com/1" "T" "T"]
                  [] (Resolved (Some [samplePost "a.com/1" "" "T"])))
               [samplePost "a.com/1" "" "T"]
               (samplePost "a.com/1" "" "T") (samplePost "a.com/1" "T" "T")
               (sampleDoc "5a00000000000000000000aa" "F" "a.com/1" "T" "T")
               _ _ _ _ _ _ _)))); try reflexivity; apply list_elem_of_here.
Defined.

Lemma no_insert_no_stream_call_witness :
  let stored := sampleDoc "5a00000000000000000000aa" "F" "a.com/1" "T" "T" in
  let w := sampleWorld [stored] [] (Resolved (Some [samplePost "a.com/1" "" "T2"])) in
  let run := handleRSS sampleNormalize sampleHash (Job.mk "F" "a.com/feed") w in
  length (articles (world run)) = length (articles w) /\
  Update.title <$> (body <$> articles (world run)) = ["T2"] /\
  forall id, EvSendRssFeedToCollections id ∉ events run.
Proof.
  cbn zeta. split; [reflexivity|]. split; [reflexivity|].
  refine (proj2 (no_insert_no_stream_call sampleNormalize sampleHash
                   (Job.mk "F" "a.com/feed")
                   (sampleWorld [sampleDoc "5a00000000000000000000aa" "F" "a.com/1" "T" "T"]
                      [] (Resolved (Some [samplePost "a.com/1" "" "T2"]))) _)).
  left. reflexivity.
Defined.

(** The processor takes every error of a job upon itself. *)
Remark rssProcessor_resolves normalize computeContentHash job w :
  outcome (rssProcessor normalize computeContentHash job w) = Resolved tt.
Proof.
  unfold rssProcessor, tryCatch. cbn zeta.
  destruct (outcome (handleRSS normalize computeContentHash job w))
    as [[]|err] eqn:E; [exact E | reflexivity].
Qed.

(** The run of section 8 of the specification, on a feed without articles:
    a first job stores and announces the article; a second job with the same
    content writes nothing and announces nothing; a third job, with the
    title changed, updates the stored article and announces nothing. *)
Example three_jobs :
  let job := Job.mk "F" "a.com/feed" in
  let w0 := sampleWorld [] [] (Resolved (Some [samplePost "a.com/1" "" "T"])) in
  let r1 := handleRSS sampleNormalize sampleHash job w0 in
  let r2 := handleRSS sampleNormalize sampleHash job (world r1) in
  let w2 := mkWorld (feeds (world r2)) (articles (world r2)) (nextId (world r2))
              sampleIds [] [] None "2018-05-03T00:00:00.000Z"
              (fun _ => Resolved (Some [samplePost "a.com/1" "" "T2"])) in
  let r3 := handleRSS sampleNormalize sampleHash job w2 in
  (articles (world r1) = [sampleDoc "5b0000000000000000000000" "F" "a.com/1" "T" "T"] /\
   List.filter isAnnouncement (events r1) =
   [EvOgQueueAdd "article" "a.com/1";
    EvAddActivities "rss" "F"
      [mkActivity "F" "articles:5b0000000000000000000000" "5b0000000000000000000000"
                  "2018-05-01T00:00:00.000Z" "rss_article"];
    EvSendRssFeedToCollections "F"]) /\
  (articles (world r2) = articles (world r1) /\
   omap upsertOf (events r2) = [] /\
   List.filter isAnnouncement (events r2) = []) /\
  (articles (world r3) = [sampleDoc "5b0000000000000000000000" "F" "a.com/1" "T2" "T2"] /\
   List.filter isAnnouncement (events r3) = []).
Proof. by vm_compute. Qed.

(** A job none of whose fetched articles normalises sends the store a query
    with nothing under [$or]; where the store refuses such a query the job
    rejects there, before the count. *)
Remark no_candidate_job :
  let w := sampleWorld [] [] (Resolved (Some [samplePost "not a url" "" "T"])) in
  let run := handleRSS (fun _ => None) sampleHash (Job.mk "F" "a.com/feed") w in
  outcome run = Rejected (mkError (Some 2%Z) "$and/$or/$nor must be a nonempty array") /\
  last (events run) = Some (EvArticleFind "F" []).
Proof. by vm_compute. Qed.

(** * Further properties *)

(** ** The processor *)

(** X1. [rssProcessor] takes every error of the job upon itself: it always
    resolves, and what it leaves behind, in the world and in calls made, is
    what [handleRSS] leaves behind, also when [handleRSS] rejects. *)
Theorem rssProcessor_swallows_errors normalize computeContentHash job w :
  let p := rssProcessor normalize computeContentHash job w in
  let h := handleRSS normalize computeContentHash job w in
  outcome p = Resolved tt /\ world p = world h /\ events p = events h.
Proof.
  cbn zeta. unfold rssProcessor, tryCatch. cbn zeta.
  destruct (outcome (handleRSS normalize computeContentHash job w))
    as [[]|err] eqn:E.
  - by rewrite E.
  - cbn. by rewrite app_nil_r.
Qed.

(** ** What a job calls *)

Lemma batch_calls rssID url posts w :
  Forall (fun e => isJobCall rssID url e = true) (events (batch rssID posts w)).
Proof.
  revert w. induction posts as [|post posts IH]; intros w; [apply List.Forall_nil|].
  rewrite batch_cons. cbn [events]. apply Forall_app. split; [|apply IH].
  pose proof (step_events rssID post w) as Hev. cbn zeta in Hev.
  destruct Hev as [-> | ->]; repeat (apply List.Forall_cons);
    try apply List.Forall_nil; try done; cbn; by apply bool_decide_eq_true.
Qed.

Lemma upsertManyArticles_calls rssID url candidates w :
  Forall (fun e => isJobCall rssID url e = true)
         (events (upsertManyArticles rssID candidates w)).
Proof.
  rewrite upsertManyArticles_run.
  destruct (findFault candidates w) as [err|].
  - apply List.Forall_cons; [cbn; by apply bool_decide_eq_true | apply List.Forall_nil].
  - cbn [events prepend app].
    apply List.Forall_cons; [cbn; by apply bool_decide_eq_true|].
    apply List.Forall_cons; [done|]. apply batch_calls.
Qed.

Lemma syncToStream_calls rssID url news w :
  Forall (fun e => isJobCall rssID url e = true)
         (events (syncToStream rssID news w)).
Proof.
  eapply Forall_impl; [apply syncToStream_events|].
  intros e [(chunk & _ & ->) | [-> _]]; cbn.
  - apply andb_true_iff. split; by apply bool_decide_eq_true.
  - by apply bool_decide_eq_true.
Qed.

Lemma afterUpserts_calls rssID url (b : Run (list UpsertResult)) :
  Forall (fun e => isJobCall rssID url e = true) (events b) ->
  Forall (fun e => isJobCall rssID url e = true) (events (afterUpserts rssID b)).
Proof.
  intros Hb. unfold afterUpserts.
  destruct (outcome b) as [all|err]; cbn [events]; [|done].
  rewrite !Forall_app. split; [done|]. split.
  { repeat (apply List.Forall_cons); try apply List.Forall_nil; try done;
      cbn; by apply bool_decide_eq_true. }
  split.
  { apply Forall_forall. intros e (d & -> & _)%list_elem_of_fmap. cbn.
    by apply bool_decide_eq_true. }
  split; [apply syncToStream_calls|].
  destruct (outcome (syncToStream _ _ _));
    repeat (apply List.Forall_cons); try apply List.Forall_nil; done.
Qed.

(** X2. Every call of a job is addressed to the job's own feed: the reads
    and writes of the feed collection and of the article collection name the
    job's rss id, every document written carries it, the one url fetched is
    the job's url, the stream feed is (rss, rss id), and every enrichment
    job has type "article". *)
Theorem job_calls_own_feed normalize computeContentHash job w :
  Forall (fun e => isJobCall (Job.rss job) (Job.url job) e = true)
         (events (handleRSS normalize computeContentHash job w)).
Proof.
  destruct (handleRSS_cases normalize computeContentHash job w)
    as [[Hf Hrun] | [(f0 & err & _ & Hweb & Hrun) | [(f0 & _ & Hweb & Hrun) |
        (f0 & arts & _ & Hweb & Hne & Hrun)]]];
    cbn zeta in Hrun; rewrite Hrun; clear Hrun.
  1-3: cbn; repeat (apply List.Forall_cons); try apply List.Forall_nil;
       cbn; by apply bool_decide_eq_true.
  cbn [events prepend]. rewrite !Forall_app. split; [split|].
  - cbn; repeat (apply List.Forall_cons); try apply List.Forall_nil;
      cbn; by apply bool_decide_eq_true.
  - repeat (apply List.Forall_cons); try apply List.Forall_nil; done.
  - apply afterUpserts_calls, upsertManyArticles_calls.
Qed.

(** ** What a job leaves alone *)

Lemma handleRSS_feeds normalize computeContentHash job w :
  exists g : Feed.t -> Feed.t,
    feeds (world (handleRSS normalize computeContentHash job w)) =
    alter g (Job.rss job) (feeds w).
Proof.
  destruct (handleRSS_cases normalize computeContentHash job w)
    as [[Hf Hrun] | [(f0 & err & _ & Hweb & Hrun) | [(f0 & _ & Hweb & Hrun) |
        (f0 & arts & _ & Hweb & Hne & Hrun)]]];
    cbn zeta in Hrun; rewrite Hrun; clear Hrun.
  - eexists. reflexivity.
  - eexists. cbn -[alter]. apply alter_alter_eq.
  - eexists. unfold afterFetch. cbn -[alter]. apply alter_alter_eq.
  - cbn [world prepend].
    destruct (afterUpserts_world (Job.rss job)
                (upsertManyArticles (Job.rss job)
                   (candidatesOf normalize computeContentHash job w)
                   (afterFetch (Job.rss job) w))) as [_ ->].
    destruct (upsertManyArticles_frame (Job.rss job)
                (candidatesOf normalize computeContentHash job w)
                (afterFetch (Job.rss job) w)) as (-> & _).
    destruct (outcome _); unfold afterFetch; cbn -[alter]; eexists;
      rewrite ?alter_alter_eq; reflexivity.
Qed.

(** X3. A job leaves the rest of the store alone: the feed collection keeps
    its set of ids (no feed is created or deleted, not even the job's own
    when it is missing), every other feed's record is as it was, and so is
    every stored article of another feed. *)
Theorem job_touches_own_feed_only normalize computeContentHash job w :
  let run := handleRSS normalize computeContentHash job w in
  dom (feeds (world run)) = dom (feeds w) /\
  (forall id, id <> Job.rss job -> feeds (world run) !! id = feeds w !! id) /\
  List.filter (fun d => negb (bool_decide (Update.rss (body d) = Job.rss job)))
              (articles (world run)) =
  List.filter (fun d => negb (bool_decide (Update.rss (body d) = Job.rss job)))
              (articles w).
Proof.
  cbn zeta.
  destruct (handleRSS_feeds normalize computeContentHash job w) as [g ->].
  split; [apply dom_alter_L|]. split.
  - intros id Hid. by apply lookup_alter_ne.
  - destruct (handleRSS_writes normalize computeContentHash job w)
      as [[-> _] | [-> _]]; [done|].
    change (articles w) with (articles (afterFetch (Job.rss job) w)).
    apply batch_untouched. intros post d _ Hd E.
    apply negb_true_iff, bool_decide_eq_false in Hd. apply Hd.
    unfold docKey in E. by injection E.
Qed.

(** ** Identities of stored articles *)

(** X4. A job never deletes a stored article and never gives one another
    [_id], feed or url: the identities ([_id], rss, url) of the articles
    stored after the job are those stored before it, in place, followed by
    those of the articles it added, all of the job's feed. *)
Theorem job_keeps_identities normalize computeContentHash job w :
  exists added,
    map identityOf (articles (world (handleRSS normalize computeContentHash job w))) =
      map identityOf (articles w) ++ added /\
    Forall (fun i => i.2.1 = Job.rss job) added.
Proof.
  destruct (handleRSS_writes normalize computeContentHash job w)
    as [[-> _] | [-> _]].
  - exists []. by rewrite app_nil_r.
  - change (articles w) with (articles (afterFetch (Job.rss job) w)).
    apply batch_identities.
Qed.

Lemma step_unique rssID post w :
  NoDup (map docKey (articles w)) ->
  NoDup (map docKey (articles (world (upsertArticle rssID post w)))).
Proof.
  intros Hnd. pose proof (step_keys rssID post w) as Hk.
  pose proof (step_new rssID post w) as Hnew. cbn zeta in Hk, Hnew. rewrite Hk.
  destruct (outcome (upsertArticle rssID post w)) as [[d| |]|];
    cbn [inserted map]; rewrite ?app_nil_r; try done.
  apply NoDup_app. split; [done|]. split.
  - intros k Hin ->%list_elem_of_singleton.
    destruct (Hnew d) as [_ Hfresh]; [apply list_elem_of_here | done].
  - apply NoDup_singleton.
Qed.

Lemma batch_unique rssID posts w :
  NoDup (map docKey (articles w)) ->
  NoDup (map docKey (articles (world (batch rssID posts w)))).
Proof.
  revert w. induction posts as [|post posts IH]; intros w Hnd; [done|].
  rewrite batch_cons. cbn [world]. by apply IH, step_unique.
Qed.

(** X5. With the unique index on (rss, url) in place, a job keeps the
    article collection free of duplicates: if no two stored articles share
    feed and url before the job, none do after it, whatever the fetched
    articles and whatever faults the store throws in. *)
Theorem job_keeps_keys_unique normalize computeContentHash job w :
  NoDup (map docKey (articles w)) ->
  NoDup (map docKey (articles (world (handleRSS normalize computeContentHash job w)))).
Proof.
  intros Hnd.
  destruct (handleRSS_writes normalize computeContentHash job w)
    as [[-> _] | [-> _]]; [done|].
  apply batch_unique. exact Hnd.
Qed.

Lemma job_keeps_keys_unique_witness :
  let stored := sampleDoc "5a00000000000000000000aa" "F" "a.com/1" "T" "T" in
  let w := sampleWorld [stored] []
             (Resolved (Some [samplePost "a.com/1" "" "T2"; samplePost "a.com/2" "" "U"])) in
  let run := handleRSS sampleNormalize sampleHash (Job.mk "F" "a.com/feed") w in
  NoDup (map docKey (articles w)) /\
  length (articles (world run)) = 2 /\
  NoDup (map docKey (articles (world run))).
Proof.
  cbn zeta. split; [by_compute|]. split; [reflexivity|].
  apply (job_keeps_keys_unique sampleNormalize sampleHash (Job.mk "F" "a.com/feed")
           (sampleWorld [sampleDoc "5a00000000000000000000aa" "F" "a.com/1" "T" "T"] []
              (Resolved (Some [samplePost "a.com/1" "" "T2";
                               samplePost "a.com/2" "" "U"])))).
  by_compute.
Defined.

(** ** Normalisation *)

Lemma normalizeArticle_spec normalize computeContentHash a a' :
  normalizeArticle normalize computeContentHash a = Some a' ->
  normalize (Post.url a) = Some (Post.url a') /\
  computeContentHash (Post.set_url (Post.url a') a) = Some (Post.contentHash a') /\
  a' = Post.set_contentHash (Post.contentHash a') (Post.set_url (Post.url a') a).
Proof.
  unfold normalizeArticle.
  destruct (normalize (Post.url a)) as [u|]; [|done].
  destruct (computeContentHash (Post.set_url u a)) as [h|] eqn:Hh; [|done].
  by intros [= <-].
Qed.

(** X6. Whatever a job writes to the article collection comes from a fetched
    article after normalisation: the url written is the normalised url, the
    contentHash written is the one computed on the article once its url has
    been replaced by the normalised one, and the four content fields and the
    publication date are the fetched ones.  An article whose url does not
    normalise, or whose hash cannot be computed, is never written. *)
Theorem job_writes_normalised_articles normalize computeContentHash job w u :
  u ∈ omap upsertOf (events (handleRSS normalize computeContentHash job w)) ->
  exists rssArticles a,
    web w (Job.url job) = Resolved (Some rssArticles) /\ a ∈ rssArticles /\
    normalize (Post.url a) = Some (Update.url u) /\
    computeContentHash (Post.set_url (Update.url u) a) = Some (Update.contentHash u) /\
    Update.rss u = Job.rss job /\
    Update.title u = Post.title a /\ Update.description u = Post.description a /\
    Update.content u = Post.content a /\ Update.commentUrl u = Post.commentUrl a /\
    Update.publicationDate u = Post.publicationDate a.
Proof.
  intros Hu.
  destruct (handleRSS_writes normalize computeContentHash job w) as [[_ E] | [_ E]];
    rewrite E in Hu; [by apply elem_of_nil in Hu|].
  apply list_elem_of_fmap in Hu as (a' & -> & Hkept).
  apply articlesToUpsert_spec in Hkept as (Hcand & _).
  unfold candidatesOf in Hcand.
  destruct (web w (Job.url job)) as [[rssArticles|]|];
    try (by apply elem_of_nil in Hcand).
  apply list_elem_of_omap in Hcand as (a & Ha & Hnorm).
  apply normalizeArticle_spec in Hnorm as (Hn & Hh & Ha').
  exists rssArticles, a. split; [done|]. split; [done|].
  split; [done|]. split; [done|]. rewrite Ha'. by cbn.
Qed.

Lemma job_writes_normalised_articles_witness :
  let w := sampleWorld [] [] (Resolved (Some [samplePost "a.com/1" "" "T"])) in
  let run := handleRSS sampleNormalize sampleHash (Job.mk "F" "a.com/feed") w in
  let u := upsertUpdate "F" (samplePost "a.com/1" "T" "T") in
  u ∈ omap upsertOf (events run) /\
  exists rssArticles a,
    web w "a.com/feed" = Resolved (Some rssArticles) /\ a ∈ rssArticles /\
    sampleNormalize (Post.url a) = Some "a.com/1" /\
    sampleHash (Post.set_url "a.com/1" a) = Some "T".
Proof.
  cbn zeta. split; [by_compute|].
  destruct (job_writes_normalised_articles sampleNormalize sampleHash
              (Job.mk "F" "a.com/feed")
              (sampleWorld [] [] (Resolved (Some [samplePost "a.com/1" "" "T"])))
              (upsertUpdate "F" (samplePost "a.com/1" "T" "T")))
    as (rssArticles & a & Hweb & Ha & Hn & Hh & _).
  - by_compute.
  - exists rssArticles, a. split; [exact Hweb|]. split; [exact Ha|].
    split; [exact Hn | exact Hh].
Defined.

(** ** Enrichment *)

(** The articles that a job which got past its upserts has added to the
    store are the documents that its upserts handed back. *)
Lemma added_identities normalize computeContentHash job w :
  let run := handleRSS normalize computeContentHash job w in
  (outcome run = Resolved tt \/ EvArticleCount (Job.rss job) ∈ events run) ->
  map identityOf (drop (length (articles w)) (articles (world run))) =
  map identityOf (newsOf normalize computeContentHash job w).
Proof.
  cbn zeta. intros Hpast.
  destruct (handleRSS_fanout normalize computeContentHash job w)
    as (_ & _ & _ & _ & rest & Hids & Hrest). cbn zeta in Hids, Hrest.
  assert (rest = []) as ->.
  { destruct Hrest as [-> | [[err Hrej] Hno]]; [done|].
    destruct Hpast; [congruence | done]. }
  rewrite app_nil_r in Hids.
  transitivity
    (drop (length (articles w))
       (map identityOf
          (articles (world (handleRSS normalize computeContentHash job w)))));
    [apply fmap_drop|].
  rewrite Hids, <- (length_map identityOf (articles w)).
  apply drop_app_length.
Qed.

Lemma identity_urls (l : list Doc) :
  map (fun d => Update.url (body d)) l = map (fun i => i.2.2) (map identityOf l).
Proof. by rewrite <- list_fmap_compose. Qed.

Lemma identity_ids (l : list Doc) :
  map _id l = map fst (map identityOf l).
Proof. by rewrite <- list_fmap_compose. Qed.

(** X7. A job that resolves has queued one enrichment job for each article
    it added to the store, and no other: the urls of its [OgQueueAdd] calls
    are, call by call, the urls of the articles that the store holds behind
    those it held before the job; so there are as many enrichment jobs as
    articles added. *)
Theorem enrichment_matches_inserts normalize computeContentHash job w :
  let run := handleRSS normalize computeContentHash job w in
  let added := drop (length (articles w)) (articles (world run)) in
  outcome run = Resolved tt ->
  omap ogOf (events run) = map (fun d => Update.url (body d)) added /\
  length (articles (world run)) =
    length (articles w) + length (omap ogOf (events run)).
Proof.
  cbn zeta. intros Hres.
  pose proof (added_identities normalize computeContentHash job w (or_introl Hres))
    as Hadded. cbn zeta in Hadded.
  destruct (handleRSS_fanout normalize computeContentHash job w)
    as (Hog & _ & _ & _ & rest & Hids & _). cbn zeta in Hog, Hids.
  assert (omap ogOf (events (handleRSS normalize computeContentHash job w)) =
          map (fun d => Update.url (body d))
            (drop (length (articles w))
               (articles (world (handleRSS normalize computeContentHash job w)))))
    as Hurls.
  { by rewrite Hog, !identity_urls, Hadded. }
  split; [exact Hurls|].
  apply (f_equal length) in Hids. rewrite !length_app, !length_map in Hids.
  rewrite Hurls, length_map, length_drop. lia.
Qed.

Lemma enrichment_matches_inserts_witness :
  let stored := sampleDoc "5a00000000000000000000aa" "F" "a.com/1" "T" "T" in
  let w := sampleWorld [stored] []
             (Resolved (Some [samplePost "a.com/1" "" "T2"; samplePost "a.com/2" "" "U"])) in
  let run := handleRSS sampleNormalize sampleHash (Job.mk "F" "a.com/feed") w in
  outcome run = Resolved tt /\
  omap ogOf (events run) = ["a.com/2"] /\
  omap ogOf (events run) =
    map (fun d => Update.url (body d)) (drop (length (articles w)) (articles (world run))).
Proof.
  cbn zeta. split; [reflexivity|]. split; [reflexivity|].
  refine (proj1 (enrichment_matches_inserts sampleNormalize sampleHash
                   (Job.mk "F" "a.com/feed")
                   (sampleWorld [sampleDoc "5a00000000000000000000aa" "F" "a.com/1" "T" "T"] []
                      (Resolved (Some [samplePost "a.com/1" "" "T2";
                                       samplePost "a.com/2" "" "U"]))) _)).
  reflexivity.
Defined.

(** X8. Within a job the enrichment jobs are all queued before the stream
    is touched: the calls of the job split in two, with no stream call in
    the first part and no [OgQueueAdd] in the second. *)
Theorem enrichment_before_stream normalize computeContentHash job w :
  exists first second,
    events (handleRSS normalize computeContentHash job w) = first ++ second /\
    Forall (fun e => isStreamCall e = false) first /\
    Forall (fun e => ogOf e = None) second.
Proof.
  destruct (handleRSS_cases normalize computeContentHash job w)
    as [[Hf Hrun] | [(f0 & err & _ & Hweb & Hrun) | [(f0 & _ & Hweb & Hrun) |
        (f0 & arts & _ & Hweb & Hne & Hrun)]]];
    cbn zeta in Hrun; rewrite Hrun; clear Hrun.
  1-3: eexists _, []; rewrite app_nil_r; split; [reflexivity|];
       split; [|apply List.Forall_nil];
       cbn; repeat (apply List.Forall_cons); try apply List.Forall_nil; done.
  cbn [events prepend]. unfold afterUpserts.
  set (b := upsertManyArticles _ _ _).
  assert (Forall (fun e => isStreamCall e = false) (events b)) as Hb.
  { eapply Forall_impl; [apply (proj1 (upsertManyArticles_events _ _ _))|].
    intros e. by destruct e. }
  assert (Forall (fun e => isStreamCall e = false)
            (fetchEvents job w
             ++ [EvStatsdIncrement "winds.handle_rss.articles.parsed" (length arts);
                 EvStatsdTiming "winds.handle_rss.articles.parsed"
                   (Some (length arts))])) as Hpre.
  { cbn. repeat (apply List.Forall_cons); try apply List.Forall_nil; done. }
  destruct (outcome b) as [all|err]; cbn [events].
  - match goal with |- context [syncToStream ?i ?l ?x] => set (s := syncToStream i l x) end.
    exists ((fetchEvents job w
             ++ [EvStatsdIncrement "winds.handle_rss.articles.parsed" (length arts);
                 EvStatsdTiming "winds.handle_rss.articles.parsed"
                   (Some (length arts))])
            ++ events b
            ++ [EvArticleCount (Job.rss job);
                EvRssUpdate (Job.rss job)
                  (PatchPostCount (articleCount (Job.rss job) (world b)));
                EvStatsdIncrement "winds.handle_rss.articles.upserted"
                  (length (omap truthy all))]
            ++ map (fun d => EvOgQueueAdd "article" (Update.url (body d)))
                 (omap truthy all)),
           (events s
            ++ match outcome s with
               | Resolved _ => [EvStatsdTiming "winds.handle_rss.send_to_stream" None]
               | Rejected _ => []
               end).
    split; [by rewrite <- !app_assoc|]. split.
    + apply Forall_app. split; [exact Hpre|].
      apply Forall_app. split; [exact Hb|]. apply Forall_app. split.
      * repeat (apply List.Forall_cons); try apply List.Forall_nil; done.
      * apply Forall_forall. by intros e (d & -> & _)%list_elem_of_fmap.
    + apply Forall_app. split.
      * eapply Forall_impl; [apply syncToStream_events|].
        by intros e [(chunk & _ & ->) | [-> _]].
      * destruct (outcome s); repeat (apply List.Forall_cons);
          try apply List.Forall_nil; done.
  - eexists _, []. rewrite app_nil_r. split; [reflexivity|].
    split; [|apply List.Forall_nil]. by apply Forall_app.
Qed.

(** ** A job run again *)













(** ** The calls to the stream, counted *)

Lemma chunksOf_length {A} n (l : list A) :
  length (chunksOf (S n) l) = (length l + n) / S n.
Proof.
  remember (length l) as k eqn:Hk. revert l Hk.
  induction k as [k IH] using lt_wf_ind. intros [|x l] Hk.
  - simp chunksOf. cbn in Hk. subst k. symmetry. apply Nat.div_small. lia.
  - simp chunksOf. cbn [length].
    rewrite (IH (length (drop n l))); [| subst k; rewrite length_drop; cbn; lia | done].
    rewrite length_drop. cbn in Hk. subst k.
    destruct (decide (n <= length l)) as [Hle|Hgt].
    + replace (S (length l) + n) with ((length l - n + n) + 1 * S n) by lia.
      rewrite Nat.div_add by lia. lia.
    + replace (length l - n + n) with n by lia.
      rewrite (Nat.div_small n) by lia.
      apply Nat.div_unique with (length l); lia.
Qed.

(** The activities of a job that has published every chunk. *)
Lemma complete_activities rssID (news : list Doc) :
  omap activitiesOf
    (map (publishEvent "rss" rssID) (chunksOf chunkSize news)
     ++ match news with
        | [] => []
        | _ => [EvSendRssFeedToCollections rssID]
        end) = map (map streamActivity) (chunksOf chunkSize news).
Proof.
  rewrite omap_app, omap_activitiesOf_publish.
  destruct news; cbn; apply app_nil_r.
Qed.

(** X10. A job that resolves has published every article it added to the
    store, each once and none besides: the objects of the activities of its
    [addActivities] calls are, one by one and in order, the [_id]s of the
    articles that the store holds behind those it held before the job;
    every activity has the job's feed as actor, "articles:" and its object
    as foreign_id and verb "rss_article"; and the calls are as few as
    chunks of 100 allow, the number of added articles over 100, rounded
    up. *)
Theorem stream_calls_of_resolved_job normalize computeContentHash job w :
  let run := handleRSS normalize computeContentHash job w in
  let calls := omap activitiesOf (events run) in
  let added := drop (length (articles w)) (articles (world run)) in
  outcome run = Resolved tt ->
  map object (concat calls) = map _id added /\
  Forall (fun a => actor a = Job.rss job /\
                   foreign_id a = String.append "articles:" (object a) /\
                   verb a = "rss_article") (concat calls) /\
  length (articles (world run)) = length (articles w) + length (concat calls) /\
  length calls = (length (concat calls) + 99) / 100.
Proof.
  cbn zeta. intros Hres.
  pose proof (added_identities normalize computeContentHash job w (or_introl Hres))
    as Hadded. cbn zeta in Hadded.
  pose proof (newsOf_inserted normalize computeContentHash job w) as Hnews.
  destruct (handleRSS_fanout normalize computeContentHash job w)
    as (_ & _ & Hcalls & _ & rest & Hids & _). cbn zeta in Hcalls, Hids.
  specialize (Hcalls Hres).
  set (news := newsOf normalize computeContentHash job w) in *.
  assert (omap activitiesOf (events (handleRSS normalize computeContentHash job w)) =
          map (map streamActivity) (chunksOf chunkSize news)) as ->.
  { by rewrite <- omap_activitiesOf_stream, Hcalls, complete_activities. }
  assert (concat (map (map streamActivity) (chunksOf chunkSize news)) =
          map streamActivity news) as Hcat.
  { rewrite <- concat_map. change chunkSize with (S 99). by rewrite chunksOf_concat. }
  rewrite Hcat.
  assert (length news =
          length (drop (length (articles w))
                    (articles (world (handleRSS normalize computeContentHash job w)))))
    as Hlen.
  { apply (f_equal length) in Hadded. by rewrite !length_map in Hadded. }
  split; [|split; [|split]].
  - rewrite !identity_ids, Hadded, <- identity_ids.
    by rewrite <- list_fmap_compose.
  - apply Forall_forall. intros a (d & -> & Hd)%list_elem_of_fmap.
    rewrite Forall_forall in Hnews.
    destruct (Hnews d Hd) as ((p & _ & Hb) & _). cbn. by rewrite Hb.
  - rewrite length_map, Hlen, length_drop.
    apply (f_equal length) in Hids. rewrite !length_app, !length_map in Hids. lia.
  - rewrite !length_map. change chunkSize with (S 99). apply chunksOf_length.
Qed.

Lemma stream_calls_of_resolved_job_witness :
  let w := sampleWorld [] []
             (Resolved (Some [samplePost "a.com/1" "" "T"; samplePost "a.com/2" "" "U"])) in
  let run := handleRSS sampleNormalize sampleHash (Job.mk "F" "a.com/feed") w in
  let calls := omap activitiesOf (events run) in
  outcome run = Resolved tt /\
  map object (concat calls) = ["5b0000000000000000000000"; "5b0000000000000000000001"] /\
  map object (concat calls) = map _id (drop (length (articles w)) (articles (world run))).
Proof.
  cbn zeta. split; [reflexivity|]. split; [reflexivity|].
  refine (proj1 (stream_calls_of_resolved_job sampleNormalize sampleHash
                   (Job.mk "F" "a.com/feed")
                   (sampleWorld [] []
                      (Resolved (Some [samplePost "a.com/1" "" "T";
                                       samplePost "a.com/2" "" "U"]))) _)).
  reflexivity.
Defined.



(** ** The counters of a job *)

(** X12. The counters that a job reports are the figures of its run:
    [articles.parsed] is the number of articles fetched, before any is
    dropped for not normalising; [articles.already_in_mongo] is the number
    of the feed's stored articles that match a candidate in url and
    contentHash; [articles.ignored] goes up by one at a time; and
    [articles.upserted] is the number of articles the job added to the
    store.  The job increments no other counter. *)
Theorem counters_report_the_run normalize computeContentHash job w name n :
  let run := handleRSS normalize computeContentHash job w in
  let rssID := Job.rss job in
  EvStatsdIncrement name n ∈ events run ->
  (name = "winds.handle_rss.articles.parsed" /\
   exists rssArticles, web w (Job.url job) = Resolved (Some rssArticles) /\
                       n = length rssArticles) \/
  (name = "winds.handle_rss.articles.already_in_mongo" /\
   n = length (existingArticles rssID
                 (candidatesOf normalize computeContentHash job w) w)) \/
  (name = "winds.handle_rss.articles.ignored" /\ n = 1) \/
  (name = "winds.handle_rss.articles.upserted" /\
   length (articles (world run)) = length (articles w) + n).
Proof.
  cbn zeta.
  destruct (handleRSS_cases normalize computeContentHash job w)
    as [[Hf Hrun] | [(f0 & err & _ & Hweb & Hrun) | [(f0 & _ & Hweb & Hrun) |
        (f0 & arts & Hf & Hweb & Hne & Hrun)]]];
    cbn zeta in Hrun; rewrite Hrun; clear Hrun.
  1-3: cbn; intros He; exfalso; in_explicit He.
  cbn [outcome world events prepend].
  set (cands := candidatesOf normalize computeContentHash job w).
  set (w0 := afterFetch (Job.rss job) w).
  set (b := upsertManyArticles (Job.rss job) cands w0).
  destruct (afterUpserts_world (Job.rss job) b) as [-> _].
  assert (EvStatsdIncrement name n ∈ events b ->
          (name = "winds.handle_rss.articles.already_in_mongo" /\
           n = length (existingArticles (Job.rss job) cands w)) \/
          (name = "winds.handle_rss.articles.ignored" /\ n = 1)) as Hb.
  { subst b. rewrite upsertManyArticles_run.
    destruct (findFault cands w0); cbn [events prepend]; intros He.
    { in_explicit He. }
    apply elem_of_app in He as [He|He].
    - in_explicit He. injection He as -> ->. by left.
    - destruct (batch_events (Job.rss job)
                  (articlesToUpsert (Job.rss job) cands w0) w0) as [_ Hev].
      eapply Forall_forall in Hev; [|exact He].
      destruct Hev as [[u Hu] | Hig]; [done|].
      injection Hig as -> ->. by right. }
  intros He.
  apply elem_of_app in He as [He|He].
  { cbn in He. in_explicit He. injection He as -> ->. left. split; [done|]. by exists arts. }
  unfold afterUpserts in He.
  destruct (outcome b) as [all|err] eqn:Hout; cbn [events] in He.
  - apply elem_of_app in He as [He|He]; [right; destruct (Hb He); auto|].
    apply elem_of_app in He as [He|He].
    { in_explicit He. injection He as -> ->. right. right. right. split; [done|].
      exact (upsertManyArticles_length (Job.rss job) cands w0 all Hout). }
    exfalso.
    apply elem_of_app in He as [He|He].
    { by apply list_elem_of_fmap in He as (d & [=] & _). }
    apply elem_of_app in He as [He|He].
    + match type of He with _ ∈ events (syncToStream ?i ?l ?x) =>
        pose proof (syncToStream_events i l x) as Hs end.
      eapply Forall_forall in Hs; [|exact He].
      by destruct Hs as [(c & _ & [=]) | [[=] _]].
    + match type of He with context [outcome ?s] => destruct (outcome s) end;
        in_explicit He.
  - right. destruct (Hb He); auto.
Qed.

Lemma counters_report_the_run_witness :
  let stored := sampleDoc "5a00000000000000000000aa" "F" "a.com/1" "T" "T" in
  let w := sampleWorld [stored] []
             (Resolved (Some [samplePost "a.com/1" "" "T"; samplePost "a.com/2" "" "U"])) in
  let run := handleRSS sampleNormalize sampleHash (Job.mk "F" "a.com/feed") w in
  EvStatsdIncrement "winds.handle_rss.articles.upserted" 1 ∈ events run /\
  length (articles (world run)) = length (articles w) + 1.
Proof.
  cbn zeta. split; [by_compute|].
  destruct (counters_report_the_run sampleNormalize sampleHash (Job.mk "F" "a.com/feed")
              (sampleWorld [sampleDoc "5a00000000000000000000aa" "F" "a.com/1" "T" "T"] []
                 (Resolved (Some [samplePost "a.com/1" "" "T";
                                  samplePost "a.com/2" "" "U"])))
              "winds.handle_rss.articles.upserted" 1)
    as [[Hn _] | [[Hn _] | [[Hn _] | [_ H]]]];
    [by_compute | discriminate Hn | discriminate Hn | discriminate Hn | exact H].
Defined.

(** ** Failing fetches, one after the other *)

(** X13. While the fetch of a feed keeps failing, every job leaves one more
    failure on the feed: after [k] jobs for it, run one after the other,
    the failure count is [k] more than at the start, and neither the
    feed's [postCount] nor any stored article has changed. *)
Theorem failures_accumulate normalize computeContentHash job err k :
  forall w f,
  feeds w !! Job.rss job = Some f ->
  web w (Job.url job) = Rejected err ->
  let wk := worldAfter k (handleRSS normalize computeContentHash job) w in
  articles wk = articles w /\
  exists f', feeds wk !! Job.rss job = Some f' /\
    Feed.consecutiveScrapeFailures f' = k + Feed.consecutiveScrapeFailures f /\
    Feed.postCount f' = Feed.postCount f.
Proof.
  induction k as [|k IH]; intros w f Hf Hweb; cbn zeta.
  { cbn. split; [done|]. by exists f. }
  cbn [worldAfter].
  destruct (handleRSS_cases normalize computeContentHash job w)
    as [[Hf' Hrun] | [(f0 & err' & _ & _ & Hrun) | [(f0 & _ & Hweb' & Hrun) |
        (f0 & arts & _ & Hweb' & _ & Hrun)]]];
    cbn zeta in Hrun; [congruence| |destruct Hweb'; congruence|congruence].
  rewrite Hrun. cbn [world].
  match goal with |- context [worldAfter k _ ?x] => set (w1 := x) end.
  destruct (IH w1 (RSS.set_failures (S (Feed.consecutiveScrapeFailures f))
                     (RSS.applyPatch (PatchScraped (clock w) false) f)))
    as (Ha & f' & Hf1 & Hfail & Hpost).
  { subst w1. cbn -[lookup alter]. by rewrite !lookup_alter_eq, Hf. }
  { done. }
  cbn zeta in Ha, Hf1. split; [by rewrite Ha|].
  exists f'. split; [done|]. split; [|done].
  rewrite Hfail. cbn. lia.
Qed.

Lemma failures_accumulate_witness :
  let w := sampleWorld [] [] (Rejected (mkError None "ETIMEDOUT")) in
  let job := Job.mk "F" "a.com/feed" in
  let w2 := worldAfter 2 (handleRSS sampleNormalize sampleHash job) w in
  (feeds w !! "F" = Some (Feed.mk "2018-04-30T00:00:00.000Z" true 3 0) /\
   web w "a.com/feed" = Rejected (mkError None "ETIMEDOUT")) /\
  exists f', feeds w2 !! "F" = Some f' /\
             Feed.consecutiveScrapeFailures f' = 5 /\ Feed.postCount f' = 0.
Proof.
  cbn zeta. split; [split; reflexivity|].
  refine (proj2 (failures_accumulate sampleNormalize sampleHash (Job.mk "F" "a.com/feed")
                   (mkError None "ETIMEDOUT") 2
                   (sampleWorld [] [] (Rejected (mkError None "ETIMEDOUT")))
                   (Feed.mk "2018-04-30T00:00:00.000Z" true 3 0) _ _));
    reflexivity.
Defined.

(** ** The results of a batch *)

Lemma batch_positions rssID posts w all i r :
  outcome (batch rssID posts w) = Resolved all -> all !! i = Some r ->
  exists post, posts !! i = Some post /\
    forall d, r = JsDoc d ->
      body d = upsertUpdate rssID post /\
      identityOf d ∈ map identityOf (articles (world (batch rssID posts w))).
Proof.
  revert w all i. induction posts as [|p posts IH]; intros w all i.
  { by intros [= <-]. }
  rewrite batch_cons. cbn [outcome world]. intros Hout Hi.
  pose proof (step_new rssID p w) as Hnew. cbn zeta in Hnew.
  pose proof (step_identities rssID p w) as Hid.
  destruct (outcome (upsertArticle rssID p w)) as [a|]; [|done].
  destruct (outcome (batch rssID posts _)) as [l|] eqn:Hl; [|done].
  injection Hout as <-. destruct i as [|i].
  - injection Hi as ->. exists p. split; [done|]. intros d ->.
    destruct (Hnew d (list_elem_of_here _ _)) as [Hb _]. split; [done|].
    destruct (batch_identities rssID posts (world (upsertArticle rssID p w)))
      as (added & -> & _).
    apply elem_of_app. left. rewrite Hid. apply elem_of_app. right.
    apply list_elem_of_here.
  - apply (IH _ _ _ Hl Hi).
Qed.

(** X14. The results of [upsertManyArticles] follow the candidates that the
    prefilter kept, place by place: the result at a place belongs to the
    candidate at that place, and when it is a document, the document
    carries the fields of that candidate and is in the store under its
    [_id] and key when the batch has settled. *)
Theorem results_follow_candidates rssID candidates w all i r :
  let run := upsertManyArticles rssID candidates w in
  outcome run = Resolved all -> all !! i = Some r ->
  exists post, articlesToUpsert rssID candidates w !! i = Some post /\
    forall d, r = JsDoc d ->
      body d = upsertUpdate rssID post /\
      identityOf d ∈ map identityOf (articles (world run)).
Proof.
  cbn zeta. rewrite upsertManyArticles_run.
  destruct (findFault candidates w); [done|]. cbn [outcome world prepend].
  apply batch_positions.
Qed.

Lemma results_follow_candidates_witness :
  let stored := sampleDoc "5a00000000000000000000aa" "F" "a.com/1" "h0" "T" in
  let w := sampleWorld [stored] [] (Resolved None) in
  let candidates := [samplePost "a.com/1" "T2" "T2"; samplePost "a.com/2" "U" "U"] in
  let d := sampleDoc "5b0000000000000000000000" "F" "a.com/2" "U" "U" in
  outcome (upsertManyArticles "F" candidates w) = Resolved [JsUndefined; JsDoc d] /\
  exists post, articlesToUpsert "F" candidates w !! 1 = Some post /\
               body d = upsertUpdate "F" post.
Proof.
  cbn zeta. split; [reflexivity|].
  destruct (results_follow_candidates "F"
              [samplePost "a.com/1" "T2" "T2"; samplePost "a.com/2" "U" "U"]
              (sampleWorld [sampleDoc "5a00000000000000000000aa" "F" "a.com/1" "h0" "T"]
                 [] (Resolved None))
              [JsUndefined;
               JsDoc (sampleDoc "5b0000000000000000000000" "F" "a.com/2" "U" "U")]
              1 (JsDoc (sampleDoc "5b0000000000000000000000" "F" "a.com/2" "U" "U")))
    as (post & Hpost & Hd); [reflexivity | reflexivity |].
  exists post. split; [exact Hpost|]. exact (proj1 (Hd _ eq_refl)).
Defined.
